(** * A movie catalogue: slug codec, query pipeline, page state, accounts

    A shallow embedding of the pure parts of the catalogue application:

    - [utils/slugify.ts]          the slug codec ([createSlug], [decodeSlug]);
    - [App.tsx]                   the filter and sort stages of the home page
                                  ([parseRuntime], [filteredMovies],
                                  [sortedMovies]) and the handlers that move
                                  the page number;
    - [pages/MovieDetailPage.tsx] slug resolution and the recommended list
                                  ([loadMovieData]);
    - [server/index.tsx]          the three account handlers over the
                                  key-value store.

    JavaScript strings are sequences of UTF-16 code units, numbers are
    rationals (every finite double is one, and the code only compares numbers
    and looks at the sign of a difference), [undefined] is [None]. *)

From Stdlib Require Import List ZArith NArith QArith Qround Lqa Lia Bool.
From Stdlib Require Import Ascii String Sorted Permutation.
From stdpp Require gmap.
Import ListNotations.

Close Scope Q_scope.

(** ** JavaScript strings *)

Module JS.

Local Open Scope N_scope.

Definition codeunit := N.
Definition jsstring := list codeunit.

(** A string literal of the source, as code units. *)
Definition js (s : string) : jsstring :=
  List.map N_of_ascii (list_ascii_of_string s).

Definition jsstring_eqb (a b : jsstring) : bool :=
  if list_eq_dec N.eq_dec a b then true else false.

Lemma jsstring_eqb_eq a b : jsstring_eqb a b = true <-> a = b.
Proof.
  unfold jsstring_eqb. destruct (list_eq_dec N.eq_dec a b); split; congruence.
Qed.

Definition between (lo hi c : codeunit) : bool := (lo <=? c)%N && (c <=? hi)%N.

Definition hyphen : codeunit := 45%N.
Definition comma : codeunit := 44%N.
Definition space : codeunit := 32%N.

(** [\d], [\w] and [\s] of a regular expression without the [u] flag. *)
Definition isDigit (c : codeunit) : bool := between 48 57 c.

Definition isUpperAscii (c : codeunit) : bool := between 65 90 c.

Definition isLowerWord (c : codeunit) : bool :=
  between 97 122 c || isDigit c || (c =? 95)%N.

Definition isWordChar (c : codeunit) : bool :=
  isLowerWord c || isUpperAscii c.

(** [\s], which is also what [String.prototype.trim] strips: TAB, LF, VT, FF,
    CR, SP, NBSP, U+1680, U+2000..U+200A, LS, PS, U+202F, U+205F, U+3000,
    U+FEFF. *)
Definition isWhiteSpace (c : codeunit) : bool :=
  between 9 13 c || (c =? 32)%N || (c =? 160)%N || (c =? 5760)%N
  || between 8192 8202 c || (c =? 8232)%N || (c =? 8233)%N
  || (c =? 8239)%N || (c =? 8287)%N || (c =? 12288)%N || (c =? 65279)%N.

Definition isHyphen (c : codeunit) : bool := (c =? hyphen)%N.

(** Case mapping of Basic Latin. *)
Definition asciiLower (c : codeunit) : codeunit :=
  if isUpperAscii c then (c + 32)%N else c.

Definition isAscii (s : jsstring) : Prop := Forall (fun c => (c < 128)%N) s.

(** What the engine supplies: [String.prototype.toLowerCase] with the
    Unicode case tables behind it, and the collation of [localeCompare].
    The two laws are the part of the tables the development relies on: on
    Basic Latin text the mapping is the ASCII one, and no capital A-Z is ever
    produced. *)
Class Engine := {
  toLowerCase : jsstring -> jsstring;
  localeCompare : jsstring -> jsstring -> Z;
  toLowerCase_ascii : forall s, isAscii s -> toLowerCase s = List.map asciiLower s;
  toLowerCase_no_upper : forall s c, In c (toLowerCase s) -> isUpperAscii c = false
}.

(** [s.replace(/p+/g, r)]: every maximal run of units matching [p] becomes
    the single unit [r]; [inRun] tells that the run has been replaced
    already. *)
Fixpoint replaceRunsFrom (p : codeunit -> bool) (r : codeunit)
    (inRun : bool) (s : jsstring) : jsstring :=
  match s with
  | [] => []
  | c :: rest =>
      if p c
      then if inRun then replaceRunsFrom p r true rest
           else r :: replaceRunsFrom p r true rest
      else c :: replaceRunsFrom p r false rest
  end.

Definition replaceRuns (p : codeunit -> bool) (r : codeunit) (s : jsstring) : jsstring :=
  replaceRunsFrom p r false s.

(** [s.replace(/[^...]/g, '')] for a negated class: keep the units of the
    class. *)
Definition removeUnless (keep : codeunit -> bool) (s : jsstring) : jsstring :=
  List.filter keep s.

(** [s.replace(/c/g, r)] for single units. *)
Definition replaceAll (c r : codeunit) (s : jsstring) : jsstring :=
  List.map (fun x => if (x =? c)%N then r else x) s.

Fixpoint trimStart (s : jsstring) : jsstring :=
  match s with
  | [] => []
  | c :: rest => if isWhiteSpace c then trimStart rest else s
  end.

Definition trimEnd (s : jsstring) : jsstring := rev (trimStart (rev s)).

Definition trim (s : jsstring) : jsstring := trimEnd (trimStart s).

(** [s.split(',')] for a one-unit separator: never empty, the tokens between
    the separators. *)
Fixpoint split (sep : codeunit) (s : jsstring) : list jsstring :=
  match s with
  | [] => [[]]
  | c :: rest =>
      if (c =? sep)%N then [] :: split sep rest
      else match split sep rest with
           | tok :: toks => (c :: tok) :: toks
           | [] => [[c]]
           end
  end.

Fixpoint startsWith (pre s : jsstring) : bool :=
  match pre, s with
  | [], _ => true
  | _ :: _, [] => false
  | a :: pre', b :: s' => (a =? b)%N && startsWith pre' s'
  end.

(** [s.includes(needle)]. *)
Fixpoint includes (needle s : jsstring) : bool :=
  startsWith needle s ||
  match s with
  | [] => false
  | _ :: rest => includes needle rest
  end.

(** Truthiness of a string that may be [undefined]. *)
Definition truthyStr (o : option jsstring) : bool :=
  match o with
  | Some (_ :: _) => true
  | _ => false
  end.

End JS.
Import JS.

(** ** The slug codec, [utils/slugify.ts] *)

(** [createSlug]: lower-case, drop what is neither [\w], [\s] nor a hyphen,
    turn whitespace runs into a hyphen, collapse hyphen runs, [trim()]. *)
Definition createSlug `{Engine} (title : jsstring) : jsstring :=
  trim
    (replaceRuns isHyphen hyphen
       (replaceRuns isWhiteSpace hyphen
          (removeUnless (fun c => isWordChar c || isWhiteSpace c || isHyphen c)
             (toLowerCase title)))).

Definition decodeSlug `{Engine} (slug : jsstring) : jsstring :=
  toLowerCase (replaceAll hyphen space slug).

(** The detail link of a card, [navigate(`/movie/${createSlug(movie.title)}`)]. *)
Definition movieLink `{Engine} (title : jsstring) : jsstring :=
  js "/movie/" ++ createSlug title.

(** An engine whose case tables cover Basic Latin only; every engine agrees
    with it on ASCII text. *)
Definition asciiToLowerCase (s : jsstring) : jsstring := List.map asciiLower s.

Fixpoint codeunitCompare (a b : jsstring) : Z :=
  match a, b with
  | [], [] => 0%Z
  | [], _ :: _ => (-1)%Z
  | _ :: _, [] => 1%Z
  | x :: a', y :: b' =>
      match N.compare x y with
      | Lt => (-1)%Z
      | Gt => 1%Z
      | Eq => codeunitCompare a' b'
      end
  end.

Lemma asciiLower_no_upper c : isUpperAscii (asciiLower c) = false.
Proof.
  unfold asciiLower. destruct (isUpperAscii c) eqn:E; [|exact E].
  unfold isUpperAscii, between in *.
  apply andb_true_iff in E as [E1 E2].
  apply N.leb_le in E1. apply N.leb_le in E2.
  apply andb_false_iff. right. apply N.leb_gt. lia.
Qed.

Lemma asciiToLowerCase_no_upper s c :
  In c (asciiToLowerCase s) -> isUpperAscii c = false.
Proof.
  unfold asciiToLowerCase. intros Hin.
  apply in_map_iff in Hin as [x [<- _]]. apply asciiLower_no_upper.
Qed.

#[export] Instance asciiEngine : Engine := {|
  toLowerCase := asciiToLowerCase;
  localeCompare := codeunitCompare;
  toLowerCase_ascii := fun s _ => eq_refl;
  toLowerCase_no_upper := asciiToLowerCase_no_upper
|}.

(** ** Numbers that may be [undefined] *)

Module Num.

(** A numeric field of an entry as it arrives from the API: a finite number,
    or [None] when the field is absent. As the result of an arithmetic
    operation [None] is [NaN]; both make every comparison false. *)
Definition number := option Q.

Definition num (z : Z) : number := Some (inject_Z z).

(** [a || b]: [a] unless it is falsy ([undefined], [NaN] or [0]). *)
Definition orElse (a b : number) : number :=
  match a with
  | Some q => if Qeq_bool q 0 then b else Some q
  | None => b
  end.

(** [a - b]. *)
Definition sub (a b : number) : number :=
  match a, b with
  | Some x, Some y => Some (x - y)%Q
  | _, _ => None
  end.

(** [a >= b] and [a <= b]. *)
Definition geq (a b : number) : bool :=
  match a, b with
  | Some x, Some y => Qle_bool y x
  | _, _ => false
  end.

Definition leq (a b : number) : bool :=
  match a, b with
  | Some x, Some y => Qle_bool x y
  | _, _ => false
  end.

(** [v > 0], the test a sort makes on what the comparator returns ([NaN]
    counts as [+0]). *)
Definition isPositive (v : number) : bool :=
  match v with
  | Some q => negb (Qle_bool q 0)
  | None => false
  end.


End Num.
Import Num.

(** ** Completions *)

(** The outcome of evaluating a callback: a value, or a thrown [TypeError]
    (reading a property of [undefined]). *)
Inductive completion (A : Type) : Type :=
  | Normal (a : A)
  | TypeError.
Arguments Normal {A} a.
Arguments TypeError {A}.

(** [array.filter(f)] for a callback that may throw: the entries are visited
    in order and the first throw ends the call. *)
Fixpoint filterM {A : Type} (f : A -> completion bool) (l : list A) : completion (list A) :=
  match l with
  | [] => Normal []
  | x :: rest =>
      match f x with
      | TypeError => TypeError
      | Normal keep =>
          match filterM f rest with
          | TypeError => TypeError
          | Normal rest' => Normal (if keep then x :: rest' else rest')
          end
      end
  end.

(** ** [Array.prototype.sort] *)

(** The sort is stable, and for a consistent comparator its result is the
    one stable sorted arrangement whatever the algorithm; the algorithm here
    is an insertion sort that inserts each entry in front of the sorted rest
    and moves it right past every entry it compares greater than. The
    comparator may keep a state (the generator behind [Math.random]). *)
Section Sort.
Context {A S : Type}.
Variable comparefn : A -> A -> S -> number * S.

Fixpoint insert (x : A) (sorted : list A) (s : S) : list A * S :=
  match sorted with
  | [] => ([x], s)
  | y :: rest =>
      let (v, s1) := comparefn x y s in
      if isPositive v
      then let (rest', s2) := insert x rest s1 in (y :: rest', s2)
      else (x :: sorted, s1)
  end.

Fixpoint sortWith (l : list A) (s : S) : list A * S :=
  match l with
  | [] => ([], s)
  | x :: rest =>
      let (sorted, s1) := sortWith rest s in
      insert x sorted s1
  end.
End Sort.

(** [array.sort(comparefn)] for a comparator without effects. *)
Definition sort {A : Type} (comparefn : A -> A -> number) (l : list A) : list A :=
  fst (sortWith (fun a b (_ : unit) => (comparefn a b, tt)) l tt).

(** ** The catalogue: entries, filter stage, sort stage *)

Module RuntimeFilter.
Inductive t := all | short | medium | long | oneSeason | multiSeason.
End RuntimeFilter.

Module SortOption.
(** [unrecognised] is any other string found in [localStorage]: the
    comparator's [default] branch. *)
Inductive t :=
  | dateAdded | dateAddedLatest | title | year
  | imdbRating | userRating | communityRating
  | unrecognised.
End SortOption.

Module View.
Inductive t := main | towatch.
End View.

Module Catalog.

(** An entry as the pipeline reads it. [title], [id] and [year] are always
    there (the pipeline's documented hard failure is a missing title); every
    other field it reads may be absent at run time. *)
Record Movie := {
  id : Z;
  title : jsstring;
  year : Z;
  genre : option jsstring;
  rating : number;
  description : option jsstring;
  imdbRating : number;
  runtime : option jsstring;
  userRating : number;
  tags : option (list jsstring);
  communityRating : number
}.

(** The state of the home page that the pipeline and its handlers use. *)
Record HomeState := {
  movies : list Movie;
  toWatchMovies : list Movie;
  selectedGenres : list jsstring;
  selectedYears : list Z;
  searchQuery : jsstring;
  currentPage : Z;
  currentView : View.t;
  sortBy : SortOption.t;
  imdbRatingRange : Q * Q;
  runtimeFilter : RuntimeFilter.t;
  selectedTags : list jsstring
}.

(** *** [parseRuntime] and the season patterns *)

Fixpoint takeDigits (s : jsstring) : jsstring :=
  match s with
  | c :: rest => if isDigit c then c :: takeDigits rest else []
  | [] => []
  end.

Fixpoint dropDigits (s : jsstring) : jsstring :=
  match s with
  | c :: rest => if isDigit c then dropDigits rest else s
  | [] => []
  end.

(** [parseInt] of a run of decimal digits. *)
Definition parseInt (digits : jsstring) : N :=
  fold_left (fun acc c => (10 * acc + (c - 48))%N) digits 0%N.

(** [s.match(/(\d+)/)]: the first maximal run of digits. *)
Fixpoint matchDigits (s : jsstring) : option jsstring :=
  match s with
  | [] => None
  | c :: rest => if isDigit c then Some (takeDigits s) else matchDigits rest
  end.

Definition parseRuntime (runtime : option jsstring) : N :=
  match runtime with
  | Some ((_ :: _) as r) =>
      match matchDigits r with
      | Some digits => parseInt digits
      | None => 0%N
      end
  | _ => 0%N
  end.

(** [\s+Season] at the head of [s]. *)
Definition spacesThenSeason (s : jsstring) : bool :=
  match s with
  | c :: rest => isWhiteSpace c && startsWith (js "Season") (trimStart rest)
  | [] => false
  end.

(** [s.match(/(\d+)\s+Season/)], the captured digits of the leftmost match.
    From a given start the only candidate is the whole digit run followed by
    the whole whitespace run: a shorter run of either is followed by a unit
    of the same class, which the next item of the pattern rejects. *)
Fixpoint matchSeason (s : jsstring) : option jsstring :=
  match s with
  | [] => None
  | c :: rest =>
      if isDigit c && spacesThenSeason (dropDigits s)
      then Some (takeDigits s)
      else matchSeason rest
  end.

(** *** The filter stage, [filteredMovies] *)

Section Pipeline.
Context `{Engine}.

Definition movieGenres (movie : Movie) : list jsstring :=
  match genre movie with
  | Some ((_ :: _) as g) => List.map trim (split comma g)
  | _ => []
  end.

Definition arrayIncludes (l : list jsstring) (x : jsstring) : bool :=
  existsb (jsstring_eqb x) l.

Definition genreMatch (st : HomeState) (movie : Movie) : bool :=
  (List.length (selectedGenres st) =? 0)%nat
  || existsb (fun g => arrayIncludes (movieGenres movie) g) (selectedGenres st).

Definition yearMatch (st : HomeState) (movie : Movie) : bool :=
  (List.length (selectedYears st) =? 0)%nat
  || existsb (Z.eqb (year movie)) (selectedYears st).

(** The third disjunct reads [movie.description.toLowerCase()], which
    throws when the description is absent. *)
Definition searchMatch (st : HomeState) (movie : Movie) : completion bool :=
  if jsstring_eqb (searchQuery st) []
  then Normal true
  else if includes (toLowerCase (searchQuery st)) (toLowerCase (title movie))
  then Normal true
  else match description movie with
       | Some d => Normal (includes (toLowerCase (searchQuery st)) (toLowerCase d))
       | None => TypeError
       end.

Definition movieRating (movie : Movie) : number :=
  orElse (imdbRating movie) (rating movie).

Definition ratingMatch (st : HomeState) (movie : Movie) : bool :=
  geq (movieRating movie) (Some (fst (imdbRatingRange st)))
  && leq (movieRating movie) (Some (snd (imdbRatingRange st))).

Definition isSeason (movie : Movie) : bool :=
  match runtime movie with
  | Some ((_ :: _) as r) => includes (js "season") (toLowerCase r)
  | _ => false
  end.

Definition runtimeMatch (st : HomeState) (movie : Movie) : bool :=
  let runtimeMinutes := parseRuntime (runtime movie) in
  match runtimeFilter st with
  | RuntimeFilter.all => true
  | RuntimeFilter.short =>
      negb (isSeason movie) && (0 <? runtimeMinutes)%N && (runtimeMinutes <=? 90)%N
  | RuntimeFilter.medium =>
      negb (isSeason movie) && (90 <? runtimeMinutes)%N && (runtimeMinutes <=? 150)%N
  | RuntimeFilter.long =>
      negb (isSeason movie) && (150 <? runtimeMinutes)%N
  | RuntimeFilter.oneSeason =>
      isSeason movie &&
      match runtime movie with
      | Some r => includes (js "1 Season") r || jsstring_eqb r (js "1 Seasons")
      | None => false
      end
  | RuntimeFilter.multiSeason =>
      isSeason movie &&
      match runtime movie with
      | Some r =>
          match matchSeason r with
          | Some digits => (1 <? parseInt digits)%N
          | None => false
          end
      | None => false
      end
  end.

Definition tagMatch (st : HomeState) (movie : Movie) : bool :=
  (List.length (selectedTags st) =? 0)%nat
  || match tags movie with
     | Some ts => existsb (fun tag => arrayIncludes ts tag) (selectedTags st)
     | None => false
     end.

(** The callback of [filteredMovies]: all six verdicts are computed, in
    this order, before they are combined. *)
Definition passes (st : HomeState) (movie : Movie) : completion bool :=
  match searchMatch st movie with
  | TypeError => TypeError
  | Normal search =>
      Normal (genreMatch st movie && yearMatch st movie && search
              && ratingMatch st movie && runtimeMatch st movie
              && tagMatch st movie)
  end.

Definition viewMovies (st : HomeState) : list Movie :=
  match currentView st with
  | View.towatch => toWatchMovies st
  | View.main => movies st
  end.

Definition filteredMovies (st : HomeState) : completion (list Movie) :=
  filterM (passes st) (viewMovies st).

(** *** The sort stage, [sortedMovies] *)

Definition compareMovies (key : SortOption.t) (a b : Movie) : number :=
  match key with
  | SortOption.dateAdded => sub (num (id b)) (num (id a))
  | SortOption.dateAddedLatest => sub (num (id a)) (num (id b))
  | SortOption.title => num (localeCompare (title a) (title b))
  | SortOption.year => sub (num (year b)) (num (year a))
  | SortOption.imdbRating =>
      sub (orElse (imdbRating b) (rating b)) (orElse (imdbRating a) (rating a))
  | SortOption.userRating =>
      sub (orElse (userRating b) (Some 0%Q)) (orElse (userRating a) (Some 0%Q))
  | SortOption.communityRating =>
      sub (orElse (communityRating b) (Some 0%Q))
          (orElse (communityRating a) (Some 0%Q))
  | SortOption.unrecognised => Some 0%Q
  end.

Definition sortedMovies (st : HomeState) : completion (list Movie) :=
  match filteredMovies st with
  | TypeError => TypeError
  | Normal filtered => Normal (sort (compareMovies (sortBy st)) filtered)
  end.

End Pipeline.

(** *** The handlers of the home page *)

Definition setSelectedGenres (v : list jsstring) (st : HomeState) : HomeState :=
  {| movies := movies st; toWatchMovies := toWatchMovies st;
     selectedGenres := v; selectedYears := selectedYears st;
     searchQuery := searchQuery st; currentPage := currentPage st;
     currentView := currentView st; sortBy := sortBy st;
     imdbRatingRange := imdbRatingRange st; runtimeFilter := runtimeFilter st;
     selectedTags := selectedTags st |}.

Definition setSelectedYears (v : list Z) (st : HomeState) : HomeState :=
  {| movies := movies st; toWatchMovies := toWatchMovies st;
     selectedGenres := selectedGenres st; selectedYears := v;
     searchQuery := searchQuery st; currentPage := currentPage st;
     currentView := currentView st; sortBy := sortBy st;
     imdbRatingRange := imdbRatingRange st; runtimeFilter := runtimeFilter st;
     selectedTags := selectedTags st |}.

Definition setSearchQuery (v : jsstring) (st : HomeState) : HomeState :=
  {| movies := movies st; toWatchMovies := toWatchMovies st;
     selectedGenres := selectedGenres st; selectedYears := selectedYears st;
     searchQuery := v; currentPage := currentPage st;
     currentView := currentView st; sortBy := sortBy st;
     imdbRatingRange := imdbRatingRange st; runtimeFilter := runtimeFilter st;
     selectedTags := selectedTags st |}.

Definition setCurrentPage (v : Z) (st : HomeState) : HomeState :=
  {| movies := movies st; toWatchMovies := toWatchMovies st;
     selectedGenres := selectedGenres st; selectedYears := selectedYears st;
     searchQuery := searchQuery st; currentPage := v;
     currentView := currentView st; sortBy := sortBy st;
     imdbRatingRange := imdbRatingRange st; runtimeFilter := runtimeFilter st;
     selectedTags := selectedTags st |}.

Definition setCurrentView (v : View.t) (st : HomeState) : HomeState :=
  {| movies := movies st; toWatchMovies := toWatchMovies st;
     selectedGenres := selectedGenres st; selectedYears := selectedYears st;
     searchQuery := searchQuery st; currentPage := currentPage st;
     currentView := v; sortBy := sortBy st;
     imdbRatingRange := imdbRatingRange st; runtimeFilter := runtimeFilter st;
     selectedTags := selectedTags st |}.

Definition setSortBy (v : SortOption.t) (st : HomeState) : HomeState :=
  {| movies := movies st; toWatchMovies := toWatchMovies st;
     selectedGenres := selectedGenres st; selectedYears := selectedYears st;
     searchQuery := searchQuery st; currentPage := currentPage st;
     currentView := currentView st; sortBy := v;
     imdbRatingRange := imdbRatingRange st; runtimeFilter := runtimeFilter st;
     selectedTags := selectedTags st |}.

Definition setImdbRatingRange (v : Q * Q) (st : HomeState) : HomeState :=
  {| movies := movies st; toWatchMovies := toWatchMovies st;
     selectedGenres := selectedGenres st; selectedYears := selectedYears st;
     searchQuery := searchQuery st; currentPage := currentPage st;
     currentView := currentView st; sortBy := sortBy st;
     imdbRatingRange := v; runtimeFilter := runtimeFilter st;
     selectedTags := selectedTags st |}.

Definition setRuntimeFilter (v : RuntimeFilter.t) (st : HomeState) : HomeState :=
  {| movies := movies st; toWatchMovies := toWatchMovies st;
     selectedGenres := selectedGenres st; selectedYears := selectedYears st;
     searchQuery := searchQuery st; currentPage := currentPage st;
     currentView := currentView st; sortBy := sortBy st;
     imdbRatingRange := imdbRatingRange st; runtimeFilter := v;
     selectedTags := selectedTags st |}.

Definition setSelectedTags (v : list jsstring) (st : HomeState) : HomeState :=
  {| movies := movies st; toWatchMovies := toWatchMovies st;
     selectedGenres := selectedGenres st; selectedYears := selectedYears st;
     searchQuery := searchQuery st; currentPage := currentPage st;
     currentView := currentView st; sortBy := sortBy st;
     imdbRatingRange := imdbRatingRange st; runtimeFilter := runtimeFilter st;
     selectedTags := v |}.

Definition without (x : jsstring) (l : list jsstring) : list jsstring :=
  List.filter (fun y => negb (jsstring_eqb y x)) l.

Definition handleGenreChange (genre : jsstring) (checked : bool) (st : HomeState) : HomeState :=
  setCurrentPage 1
    (if checked
     then setSelectedGenres (selectedGenres st ++ [genre]) st
     else setSelectedGenres (without genre (selectedGenres st)) st).

Definition handleClearGenres (st : HomeState) : HomeState :=
  setCurrentPage 1 (setSelectedGenres [] st).

Definition handleYearChange (y : Z) (checked : bool) (st : HomeState) : HomeState :=
  setCurrentPage 1
    (if checked
     then setSelectedYears (selectedYears st ++ [y]) st
     else setSelectedYears (List.filter (fun z => negb (z =? y)%Z) (selectedYears st)) st).

Definition handleTagChange (tag : jsstring) (checked : bool) (st : HomeState) : HomeState :=
  setCurrentPage 1
    (if checked
     then setSelectedTags (selectedTags st ++ [tag]) st
     else setSelectedTags (without tag (selectedTags st)) st).

(** What the user can do on the home page; each action is bound in the JSX
    to the handler that [dispatch] runs for it. *)
Inductive Action :=
  | GenreChange (genre : jsstring) (checked : bool)
  | ClearGenres
  | YearChange (y : Z) (checked : bool)
  | TagChange (tag : jsstring) (checked : bool)
  | SearchInput (value : jsstring)
  | SearchClear
  | ImdbRatingChange (range : Q * Q)
  | RuntimeChange (bucket : RuntimeFilter.t)
  | SortChange (key : SortOption.t)
  | ResetFilters
  | PageChange (page : Z)
  | ShowMain
  | ShowWatchlist.

Definition dispatch (a : Action) (st : HomeState) : HomeState :=
  match a with
  | GenreChange genre checked => handleGenreChange genre checked st
  | ClearGenres => handleClearGenres st
  | YearChange y checked => handleYearChange y checked st
  | TagChange tag checked => handleTagChange tag checked st
  | SearchInput value => setCurrentPage 1 (setSearchQuery value st)
  | SearchClear => setCurrentPage 1 (setSearchQuery [] st)
  | ImdbRatingChange range => setImdbRatingRange range st
  | RuntimeChange bucket => setRuntimeFilter bucket st
  | SortChange key => setSortBy key st
  | ResetFilters =>
      setCurrentPage 1
        (setRuntimeFilter RuntimeFilter.all
           (setImdbRatingRange (0%Q, inject_Z 10)
              (setSelectedTags []
                 (setSearchQuery []
                    (setSelectedYears [] (setSelectedGenres [] st))))))
  | PageChange page => setCurrentPage page st
  | ShowMain => setCurrentPage 1 (setCurrentView View.main st)
  | ShowWatchlist => setCurrentPage 1 (setCurrentView View.towatch st)
  end.

(** The actions that change a filter, with the filter they change. *)
Inductive changesFilter : Action -> Prop :=
  | cf_genre genre checked : changesFilter (GenreChange genre checked)
  | cf_clear : changesFilter ClearGenres
  | cf_year y checked : changesFilter (YearChange y checked)
  | cf_tag tag checked : changesFilter (TagChange tag checked)
  | cf_search value : changesFilter (SearchInput value)
  | cf_search_clear : changesFilter SearchClear
  | cf_rating range : changesFilter (ImdbRatingChange range)
  | cf_runtime bucket : changesFilter (RuntimeChange bucket)
  | cf_reset : changesFilter ResetFilters.

(** *** The detail page, [loadMovieData] *)

Section DetailPage.
Context `{Engine}.

Definition matchesSlug (titleSlug : jsstring) (m : Movie) : bool :=
  jsstring_eqb (createSlug (title m)) titleSlug
  || jsstring_eqb (toLowerCase (title m)) (decodeSlug titleSlug).

(** [allMoviesData.find(...)]. *)
Definition foundMovie (titleSlug : jsstring) (allMoviesData : list Movie) : option Movie :=
  List.find (matchesSlug titleSlug) allMoviesData.

(** What the page renders once loading is over. *)
Inductive Rendered :=
  | MovieNotFound
  | MovieDetail (movie : Movie).

Definition render (movie : option Movie) : Rendered :=
  match movie with
  | None => MovieNotFound
  | Some m => MovieDetail m
  end.

Definition firstGenre (g : jsstring) : jsstring :=
  toLowerCase (trim (hd [] (split comma g))).

Definition sharesGenre (first : jsstring) (m : Movie) : bool :=
  match genre m with
  | Some ((_ :: _) as g) =>
      existsb (fun tok => jsstring_eqb (toLowerCase (trim tok)) first) (split comma g)
  | _ => false
  end.

Definition isCandidate (found : Movie) (first : jsstring) (m : Movie) : bool :=
  negb (id m =? id found)%Z && sharesGenre first m.

(** [Math.random()]: the generator is a sequence of draws and the number
    of draws made so far. *)
Definition random (draws : nat -> Q) (used : nat) : Q * nat :=
  (draws used, Datatypes.S used).

Definition randomOrder (draws : nat -> Q) (_ _ : Movie) (used : nat) : number * nat :=
  let (r, used') := random draws used in
  (Some (r - (1 # 2))%Q, used').

(** The recommended list, computed only when the entry has a genre:
    filter, [sort(() => Math.random() - 0.5)], [slice(0, 5)]. *)
Definition similarMovies (draws : nat -> Q) (found : Movie)
    (allMoviesData : list Movie) : option (list Movie) :=
  match genre found with
  | Some ((_ :: _) as g) =>
      let filtered := List.filter (isCandidate found (firstGenre g)) allMoviesData in
      let shuffled := fst (sortWith (randomOrder draws) filtered 0%nat) in
      Some (firstn 5 shuffled)
  | _ => None
  end.

End DetailPage.

End Catalog.

(** ** Accounts, [server/index.tsx] *)

Module Server.
Import stdpp.base stdpp.gmap.

Record User := {
  id : jsstring;
  username : jsstring;
  email : jsstring;
  password : jsstring;
  profilePicture : option jsstring;
  createdAt : Z
}.

(** [const { password: _, ...userWithoutPassword } = user]. *)
Record PublicUser := {
  pubId : jsstring;
  pubUsername : jsstring;
  pubEmail : jsstring;
  pubProfilePicture : option jsstring;
  pubCreatedAt : Z
}.

Definition withoutPassword (u : User) : PublicUser :=
  {| pubId := id u; pubUsername := username u; pubEmail := email u;
     pubProfilePicture := profilePicture u; pubCreatedAt := createdAt u |}.

Inductive Response :=
  | Success (user : option PublicUser)
  | Failure (status : Z) (error : string)
  | ClientClosed.

(** Modelled from the spec: the key-value store module [kv_store.tsx], an
    external collaborator with [get(key) -> value | null], [set(key, value)]
    and [del(key)] over string keys; [set] stores the value the object has
    when it is called, later writes to the object do not reach the store. *)
Abbreviation Store := (gmap jsstring User).

Definition KV (A : Type) : Type := Store -> A * Store.

Definition ret {A : Type} (a : A) : KV A := fun st => (a, st).

Definition bind {A B : Type} (m : KV A) (k : A -> KV B) : KV B :=
  fun st => let (a, st') := m st in k a st'.

Notation "x <- m ;; k" := (bind m (fun x => k))
  (at level 100, m at next level, right associativity).
Notation "m ;;; k" := (bind m (fun _ => k))
  (at level 100, right associativity).

Definition kv_get (key : jsstring) : KV (option User) := fun st => (st !! key, st).
Definition kv_set (key : jsstring) (value : User) : KV unit :=
  fun st => (tt, <[key := value]> st).
Definition kv_del (key : jsstring) : KV unit := fun st => (tt, delete key st).

(** What a request gets from outside the store: the clock, the random
    suffix of a new id, and whether the client has gone away. *)
Record Env := {
  now : Z;
  newUserId : jsstring;
  aborted : bool
}.

Definition finish (env : Env) (r : Response) : KV Response :=
  if aborted env then ret ClientClosed else ret r.

Section Handlers.
Context `{Engine}.

Definition idKey (userId : jsstring) : jsstring := js "user:id:" ++ userId.
Definition usernameKey (name : jsstring) : jsstring :=
  js "user:username:" ++ toLowerCase name.
Definition emailKey (mail : jsstring) : jsstring :=
  js "user:email:" ++ toLowerCase mail.

(** POST [/auth/signup]. *)
Definition signup (env : Env) (username' email' password' : option jsstring) : KV Response :=
  match username', email', password' with
  | Some ((_ :: _) as username'), Some ((_ :: _) as email'), Some ((_ :: _) as password') =>
      existingUserByUsername <- kv_get (usernameKey username') ;;
      match existingUserByUsername with
      | Some _ => ret (Failure 400 "Username already exists")
      | None =>
          existingUserByEmail <- kv_get (emailKey email') ;;
          match existingUserByEmail with
          | Some _ => ret (Failure 400 "Email already registered")
          | None =>
              let user :=
                {| id := newUserId env; username := username';
                   email := toLowerCase email'; password := password';
                   profilePicture := None; createdAt := now env |} in
              kv_set (idKey (newUserId env)) user ;;;
              kv_set (usernameKey username') user ;;;
              kv_set (emailKey email') user ;;;
              finish env (Success (Some (withoutPassword user)))
          end
      end
  | _, _, _ => ret (Failure 400 "Missing required fields")
  end.

Definition withEmail (mail : jsstring) (u : User) : User :=
  {| id := id u; username := username u; email := mail;
     password := password u; profilePicture := profilePicture u;
     createdAt := createdAt u |}.

Definition withPassword (pw : jsstring) (u : User) : User :=
  {| id := id u; username := username u; email := email u;
     password := pw; profilePicture := profilePicture u;
     createdAt := createdAt u |}.

Definition withProfilePicture (pic : jsstring) (u : User) : User :=
  {| id := id u; username := username u; email := email u;
     password := password u; profilePicture := Some pic;
     createdAt := createdAt u |}.

(** The second half of PATCH [/auth/profile], after the e-mail block:
    [updatedUser] is the object as the e-mail block left it. *)
Definition finishProfile (env : Env) (userId : jsstring) (user updatedUser : User)
    (emailChanged : bool) (password' profilePicture' : option jsstring) : KV Response :=
  let updatedUser :=
    match password' with
    | Some ((_ :: _) as pw) =>
        if jsstring_eqb (trim pw) [] then updatedUser else withPassword pw updatedUser
    | _ => updatedUser
    end in
  let updatedUser :=
    match profilePicture' with
    | Some pic => withProfilePicture pic updatedUser
    | None => updatedUser
    end in
  kv_set (idKey userId) updatedUser ;;;
  kv_set (usernameKey (username user)) updatedUser ;;;
  (if emailChanged then ret tt else kv_set (emailKey (email user)) updatedUser) ;;;
  finish env (Success (Some (withoutPassword updatedUser))).

(** PATCH [/auth/profile]. *)
Definition updateProfile (env : Env) (userId email' password' profilePicture' : option jsstring)
    : KV Response :=
  match userId with
  | Some ((_ :: _) as userId) =>
      user <- kv_get (idKey userId) ;;
      match user with
      | None => ret (Failure 404 "User not found")
      | Some user =>
          match email' with
          | Some ((_ :: _) as email') =>
              if jsstring_eqb email' (email user)
              then finishProfile env userId user user false password' profilePicture'
              else
                let emailLower := toLowerCase email' in
                existingUserByEmail <- kv_get (js "user:email:" ++ emailLower) ;;
                let taken :=
                  match existingUserByEmail with
                  | Some other => negb (jsstring_eqb (id other) userId)
                  | None => false
                  end in
                if taken then ret (Failure 400 "Email already in use")
                else
                  kv_del (emailKey (email user)) ;;;
                  let updatedUser := withEmail emailLower user in
                  kv_set (js "user:email:" ++ emailLower) updatedUser ;;;
                  finishProfile env userId user updatedUser true password' profilePicture'
          | _ => finishProfile env userId user user false password' profilePicture'
          end
      end
  | _ => ret (Failure 400 "User ID is required")
  end.

(** POST [/auth/reset-password]. *)
Definition resetPassword (env : Env) (email' newPassword : option jsstring) : KV Response :=
  match email', newPassword with
  | Some ((_ :: _) as email'), Some ((_ :: _) as newPassword) =>
      user <- kv_get (emailKey email') ;;
      match user with
      | None => ret (Failure 404 "User not found")
      | Some user =>
          let updatedUser := withPassword newPassword user in
          kv_set (idKey (id user)) updatedUser ;;;
          kv_set (usernameKey (username user)) updatedUser ;;;
          kv_set (emailKey (email user)) updatedUser ;;;
          finish env (Success None)
      end
  | _, _ => ret (Failure 400 "Email and new password are required")
  end.

(** The three copies of a record are the entries under the three keys
    that its own fields name. *)
Definition inSync (st : Store) (u : User) : Prop :=
  st !! idKey (id u) = Some u
  /\ st !! usernameKey (username u) = Some u
  /\ st !! emailKey (email u) = Some u.

End Handlers.

End Server.

(** ** More of the home page, [App.tsx] *)

Module Arrays.

(** [array.slice(start, end)]: a negative index counts from the end, and
    both ends are clamped to the array. *)
Definition slice {A : Type} (l : list A) (start finish : Z) : list A :=
  let len := Z.of_nat (List.length l) in
  let k := if (start <? 0)%Z then Z.max (len + start) 0 else Z.min start len in
  let final := if (finish <? 0)%Z then Z.max (len + finish) 0 else Z.min finish len in
  firstn (Z.to_nat (final - k)) (skipn (Z.to_nat k) l).

(** [Array.from(new Set(l))]: the distinct values of [l], each at the place
    of its first occurrence. *)
Definition addToSet {A : Type} (eqb : A -> A -> bool) (seen : list A) (x : A) : list A :=
  if existsb (eqb x) seen then seen else seen ++ [x].

Definition newSet {A : Type} (eqb : A -> A -> bool) (l : list A) : list A :=
  fold_left (addToSet eqb) l [].

(** [Math.max(...l)] for a list that is not empty. *)
Definition mathMax (first : Z) (rest : list Z) : Z := fold_left Z.max rest first.

(** An integer as a JavaScript number: the nearest integer with 53
    significant bits, a tie going to the even one. The integers of absolute
    value up to [2 ^ 53] are numbers as they are; above that every other
    integer, then every fourth, and so on. *)
Definition toDouble (z : Z) : Z :=
  let m := Z.abs z in
  if (m <? 2 ^ 53)%Z then z
  else
    let k := (Z.log2 m - 52)%Z in
    let q := Z.shiftr m k in
    let r := Z.land m (Z.ones k) in
    let half := Z.shiftl 1 (k - 1) in
    let q' := if (r <? half)%Z then q
              else if (half <? r)%Z then (q + 1)%Z
              else if Z.even q then q else (q + 1)%Z in
    (Z.sgn z * Z.shiftl q' k)%Z.

(** [n + 1] on numbers, for an integer [n] that is a number: the sum is
    rounded to a number again (it never overflows, 1 being less than half
    the gap between the largest number and the next power of two). *)
Definition plusOne (n : Z) : Z := toDouble (n + 1).

(** [Number.isSafeInteger(n)] on integers. *)
Definition MAX_SAFE_INTEGER : Z := (2 ^ 53 - 1)%Z.

Definition isSafeInteger (n : Z) : bool := (Z.abs n <=? MAX_SAFE_INTEGER)%Z.

(** [Array.from({ length: n }, (_, i) => start + i)]. *)
Definition arrayFrom (n start : Z) : list Z :=
  List.map (fun i => (start + Z.of_nat i)%Z) (seq 0 (Z.to_nat n)).

End Arrays.
Import Arrays.

Module Home.
Import Catalog.

(** *** Pagination *)

Definition MOVIES_PER_PAGE_MOBILE : Z := 12.
Definition MOVIES_PER_PAGE_DESKTOP : Z := 24.

(** [Math.ceil(displayMovies.length / pageSize)]. *)
Definition totalPages (displayMovies : list Movie) (pageSize : positive) : Z :=
  Qceiling (Z.of_nat (List.length displayMovies) # pageSize).

Definition totalPagesMobile (displayMovies : list Movie) : Z :=
  totalPages displayMovies 12.

Definition totalPagesDesktop (displayMovies : list Movie) : Z :=
  totalPages displayMovies 24.

(** [displayMovies.slice(startIndex, startIndex + pageSize)] with
    [startIndex = (currentPage - 1) * pageSize]. *)
Definition paginatedMovies (displayMovies : list Movie) (pageSize : positive)
    (currentPage : Z) : list Movie :=
  let startIndex := ((currentPage - 1) * Z.pos pageSize)%Z in
  let endIndex := (startIndex + Z.pos pageSize)%Z in
  slice displayMovies startIndex endIndex.

Definition paginatedMoviesForMobile (st : HomeState) (displayMovies : list Movie) : list Movie :=
  paginatedMovies displayMovies 12 (currentPage st).

Definition paginatedMoviesForDesktop (st : HomeState) (displayMovies : list Movie) : list Movie :=
  paginatedMovies displayMovies 24 (currentPage st).

(** *** Lists derived from the catalogue *)

(** [recentMovies]: [[...movies].sort((a, b) => b.id - a.id).slice(0, 12)]. *)
Definition recentMovies (movies : list Movie) : list Movie :=
  slice (sort (fun a b => sub (num (id b)) (num (id a))) movies) 0 12.

(** [availableYears]: the distinct years of the current view, descending. *)
Definition availableYears (st : HomeState) : list Z :=
  sort (fun a b => sub (num b) (num a))
    (newSet Z.eqb (List.map year (viewMovies st))).

(** [allTags]: the distinct tags of the current view. *)
Definition allTags (st : HomeState) : list jsstring :=
  newSet jsstring_eqb
    (flat_map (fun m => match tags m with Some ts => ts | None => [] end)
       (viewMovies st)).

(** *** Handlers that change the lists *)

Definition setMovies (v : list Movie) (st : HomeState) : HomeState :=
  {| movies := v; toWatchMovies := toWatchMovies st;
     selectedGenres := selectedGenres st; selectedYears := selectedYears st;
     searchQuery := searchQuery st; currentPage := currentPage st;
     currentView := currentView st; sortBy := sortBy st;
     imdbRatingRange := imdbRatingRange st; runtimeFilter := runtimeFilter st;
     selectedTags := selectedTags st |}.

Definition setToWatchMovies (v : list Movie) (st : HomeState) : HomeState :=
  {| movies := movies st; toWatchMovies := v;
     selectedGenres := selectedGenres st; selectedYears := selectedYears st;
     searchQuery := searchQuery st; currentPage := currentPage st;
     currentView := currentView st; sortBy := sortBy st;
     imdbRatingRange := imdbRatingRange st; runtimeFilter := runtimeFilter st;
     selectedTags := selectedTags st |}.

(** [{ ...movie, id }]. *)
Definition withId (i : Z) (m : Movie) : Movie :=
  {| id := i; title := title m; year := year m; genre := genre m;
     rating := rating m; description := description m;
     imdbRating := imdbRating m; runtime := runtime m;
     userRating := userRating m; tags := tags m;
     communityRating := communityRating m |}.

(** [{ ...m, userRating: rating }] and [{ ...m, tags }]. *)
Definition withUserRating (r : Q) (m : Movie) : Movie :=
  {| id := id m; title := title m; year := year m; genre := genre m;
     rating := rating m; description := description m;
     imdbRating := imdbRating m; runtime := runtime m;
     userRating := Some r; tags := tags m;
     communityRating := communityRating m |}.

Definition withTags (ts : list jsstring) (m : Movie) : Movie :=
  {| id := id m; title := title m; year := year m; genre := genre m;
     rating := rating m; description := description m;
     imdbRating := imdbRating m; runtime := runtime m;
     userRating := userRating m; tags := Some ts;
     communityRating := communityRating m |}.

(** [movies.length > 0 ? Math.max(...movies.map(m => m.id)) : 0]. *)
Definition maxId (movies : list Movie) : Z :=
  match List.map id movies with
  | [] => 0%Z
  | first :: rest => mathMax first rest
  end.

(** The state that [handleMarkAsWatched] sets; it sets the same lists
    whether the two requests succeed, fail or throw. *)
Definition handleMarkAsWatched (movie : Movie) (st : HomeState) : HomeState :=
  let movieWithNewId := withId (plusOne (maxId (movies st))) movie in
  let updatedMainMovies := movieWithNewId :: movies st in
  let updatedToWatchMovies :=
    List.filter (fun m => negb (id m =? id movie)%Z) (toWatchMovies st) in
  setToWatchMovies updatedToWatchMovies (setMovies updatedMainMovies st).

(** The state that [handleAddMovie] and [handleDeleteMovie] set, again
    whatever the request does. *)
Definition handleAddMovie (newMovie : Movie) (st : HomeState) : HomeState :=
  match currentView st with
  | View.towatch => setToWatchMovies (newMovie :: toWatchMovies st) st
  | View.main => setMovies (newMovie :: movies st) st
  end.

Definition handleDeleteMovie (movieId : Z) (st : HomeState) : HomeState :=
  match currentView st with
  | View.towatch =>
      setToWatchMovies
        (List.filter (fun m => negb (id m =? movieId)%Z) (toWatchMovies st)) st
  | View.main =>
      setMovies (List.filter (fun m => negb (id m =? movieId)%Z) (movies st)) st
  end.

(** The lists that [handleUpdateRating] sets. *)
Definition handleUpdateRating (movieId : Z) (r : Q) (st : HomeState) : HomeState :=
  let update := List.map (fun m => if (id m =? movieId)%Z then withUserRating r m else m) in
  match currentView st with
  | View.towatch => setToWatchMovies (update (toWatchMovies st)) st
  | View.main => setMovies (update (movies st)) st
  end.

(** *** The sidebar buttons, [FilterSidebar] *)

(** [onGenreChange(genre, !selectedGenres.includes(genre))], and the same
    for years and tags. *)
Definition clickGenre (genre : jsstring) (st : HomeState) : HomeState :=
  handleGenreChange genre (negb (existsb (jsstring_eqb genre) (selectedGenres st))) st.

Definition clickYear (y : Z) (st : HomeState) : HomeState :=
  handleYearChange y (negb (existsb (Z.eqb y) (selectedYears st))) st.

(** *** The add dialog, [AddMovieDialog] *)

(** The runtime text of a series,
    [`${data.totalSeasons} Season${data.totalSeasons !== "1" ? "s" : ""}`]. *)
Definition seriesRuntime (totalSeasons : jsstring) : jsstring :=
  totalSeasons ++ js " Season"
  ++ (if jsstring_eqb totalSeasons (js "1") then [] else js "s").

(** [newId]: the largest id of [existingMovies] plus one, or 1. *)
Definition newId (existingMovies : list Movie) : Z :=
  match List.map id existingMovies with
  | [] => 1%Z
  | first :: rest => plusOne (mathMax first rest)
  end.



Section Dialog.
Context `{Engine}.

(** The duplicate check of the dialog, by lower-cased title in the current
    view: [movie.title.toLowerCase() === movieData.title?.toLowerCase()],
    which no entry satisfies when the fetched title is absent. *)
Definition duplicateMovie (currentViewMovies : list Movie)
    (fetchedTitle : option jsstring) : option Movie :=
  match fetchedTitle with
  | Some t =>
      List.find (fun movie => jsstring_eqb (toLowerCase (title movie)) (toLowerCase t))
        currentViewMovies
  | None => None
  end.

(** [movieData.title || "Unknown Title"]. *)
Definition dialogTitle (fetchedTitle : option jsstring) : jsstring :=
  match fetchedTitle with
  | Some ((_ :: _) as t) => t
  | _ => js "Unknown Title"
  end.

End Dialog.

End Home.

(** ** The page buttons, [PaginationControls] *)

Module PaginationControls.

(** [getPageRange]: the page numbers shown on the desktop. *)
Definition getPageRange (currentPage totalPages : Z) : list Z :=
  let maxVisible := 7%Z in
  if (totalPages <=? maxVisible)%Z then arrayFrom totalPages 1
  else
    let halfVisible := 3%Z in
    let startPage := Z.max 1 (currentPage - halfVisible) in
    let endPage := Z.min totalPages (startPage + maxVisible - 1) in
    let startPage :=
      if (endPage - startPage <? maxVisible - 1)%Z
      then Z.max 1 (endPage - maxVisible + 1) else startPage in
    let '(startPage, endPage) :=
      if (currentPage =? endPage)%Z && (endPage <? totalPages)%Z
      then
        let shift := Z.min 3 (totalPages - endPage) in
        (Z.min (startPage + shift) (totalPages - maxVisible + 1),
         Z.min (endPage + shift) totalPages)
      else if (currentPage =? startPage)%Z && (1 <? startPage)%Z
      then
        let shift := Z.min 3 (startPage - 1) in
        (Z.max (startPage - shift) 1, Z.max (endPage - shift) maxVisible)
      else (startPage, endPage) in
    arrayFrom (endPage - startPage + 1) startPage.

(** The pages that the buttons other than the numbered ones lead to:
    first, previous, next, last. *)
Definition firstPage : Z := 1.
Definition previousPage (currentPage : Z) : Z := Z.max 1 (currentPage - 1).
Definition nextPage (currentPage totalPages : Z) : Z := Z.min totalPages (currentPage + 1).
Definition lastPage (totalPages : Z) : Z := totalPages.

End PaginationControls.

(** ** The log-in route *)

Module Auth.
Import stdpp.base stdpp.gmap.
Import Server.

Section Login.
Context `{Engine}.

(** POST [/auth/login], like the handlers above for a request whose fields
    are strings or missing and a store that answers: the [catch] of a
    handler, which answers 500 when a step throws, is outside the model. *)
Definition login (env : Env) (username' password' : option jsstring) : KV Response :=
  match username', password' with
  | Some ((_ :: _) as username'), Some ((_ :: _) as password') =>
      user <- kv_get (usernameKey username') ;;
      match user with
      | None => ret (Failure 401 "Invalid username or password")
      | Some user =>
          if negb (jsstring_eqb (password user) password')
          then ret (Failure 401 "Invalid username or password")
          else finish env (Success (Some (withoutPassword user)))
      end
  | _, _ => ret (Failure 400 "Missing username or password")
  end.

End Login.

End Auth.

(** ** The state of the detail page, [MovieDetailPage] *)

Module MovieDetailPage.
Import Catalog.

(** The state variables that [loadMovieData] sets and the page reads when it
    renders ([newPosterUrl], set from the poster of the entry found, is
    left out with the poster itself). *)
Record State := {
  movie : option Movie;
  isLoading : bool;
  allMovies : list Movie;
  similarMovies : list Movie;
  isFromToWatch : bool
}.

(** The [useState] values of a page that has just been mounted. *)
Definition mounted : State :=
  {| movie := None; isLoading := true; allMovies := []; similarMovies := [];
     isFromToWatch := false |}.

Section Load.
Context `{Engine}.

(** The state when [loadMovieData] has run for the slug of the route.
    [fetched] is what the two requests gave, [moviesData.movies] and
    [toWatchData.movies], or nothing when a request or the reading of an
    answer threw, which the [catch] answers with [setIsLoading(false)] alone.
    [setMovie], [setSimilarMovies] and [setIsFromToWatch] are called only
    inside [if (foundMovie)]; there is no [else]. *)
Definition loadMovieData (draws : nat -> Q) (titleSlug : jsstring)
    (fetched : option (list Movie * list Movie)) (st : State) : State :=
  match fetched with
  | None =>
      {| movie := movie st; isLoading := false; allMovies := allMovies st;
         similarMovies := similarMovies st; isFromToWatch := isFromToWatch st |}
  | Some (moviesData, toWatchData) =>
      let allMoviesData := moviesData ++ toWatchData in
      match foundMovie titleSlug allMoviesData with
      | Some found =>
          {| movie := Some found; isLoading := false; allMovies := allMoviesData;
             similarMovies :=
               match Catalog.similarMovies draws found allMoviesData with
               | Some similar => similar
               | None => similarMovies st
               end;
             isFromToWatch := existsb (fun m => (id m =? id found)%Z) toWatchData |}
      | None =>
          {| movie := movie st; isLoading := false; allMovies := allMoviesData;
             similarMovies := similarMovies st; isFromToWatch := isFromToWatch st |}
      end
  end.

(** The effect on the route's slug: [if (titleSlug) loadMovieData()]. *)
Definition onTitleSlug (draws : nat -> Q) (titleSlug : option jsstring)
    (fetched : option (list Movie * list Movie)) (st : State) : State :=
  match titleSlug with
  | Some ((_ :: _) as slug) => loadMovieData draws slug fetched st
  | _ => st
  end.

End Load.

(** What the page shows: the spinner while [isLoading], else "Movie not
    found" when the state [movie] is empty, else the entry in it. *)
Inductive Screen :=
  | Spinner
  | Shown (page : Rendered).

Definition screen (st : State) : Screen :=
  if isLoading st then Spinner else Shown (render (movie st)).

End MovieDetailPage.

(** * The vocabulary of the properties *)

(** ** Strings *)

(** A string has no two hyphens in a row. *)
Fixpoint singleHyphens (s : jsstring) : bool :=
  match s with
  | a :: ((b :: _) as rest) => negb (isHyphen a && isHyphen b) && singleHyphens rest
  | _ => true
  end.

Definition headIsHyphen (s : jsstring) : bool :=
  match s with
  | c :: _ => isHyphen c
  | [] => false
  end.

Definition lastIsHyphen (s : jsstring) : bool := headIsHyphen (rev s).

(** The decidable form of [isAscii]. *)
Definition isAsciib (s : jsstring) : bool := forallb (fun c => (c <? 128)%N) s.

(** The units that [createSlug] removes in its second step. *)
Definition isStripped (c : codeunit) : bool :=
  negb (isWordChar c || isWhiteSpace c || isHyphen c).

(** A title of lower-case words with single blanks between them: every unit
    is a lower-case word character or a space, and no two spaces are
    adjacent. *)
Definition isPlainUnit (c : codeunit) : bool := isLowerWord c || (c =? space)%N.

Fixpoint singleSpaces (s : jsstring) : bool :=
  match s with
  | a :: ((b :: _) as rest) =>
      negb ((a =? space)%N && (b =? space)%N) && singleSpaces rest
  | _ => true
  end.

Definition spaceToHyphen (c : codeunit) : codeunit :=
  if (c =? space)%N then hyphen else c.

(** ** The page buttons *)

(** The first page of the window while the current page is a valid one:
    three pages before the current page, as far as the two ends allow. *)
Definition windowStart (currentPage totalPages : Z) : Z :=
  if (totalPages <=? 7)%Z then 1%Z
  else Z.max 1 (Z.min (currentPage - 3) (totalPages - 6)).

(** ** The catalogue *)

Module CatalogSpec.
Import Catalog.

(** Sample data: an entry with nothing but the required fields and a
    description, the state the home page starts in, and entries that differ
    from another in one field. *)
Definition entry (i : Z) (t : string) : Movie :=
  {| id := i; title := js t; year := 2000; genre := None; rating := None;
     description := Some (js "No description available.");
     imdbRating := None; runtime := None; userRating := None; tags := None;
     communityRating := None |}.

Definition initialState (ms : list Movie) : HomeState :=
  {| movies := ms; toWatchMovies := []; selectedGenres := [];
     selectedYears := []; searchQuery := []; currentPage := 1;
     currentView := View.main; sortBy := SortOption.dateAdded;
     imdbRatingRange := (0%Q, inject_Z 10);
     runtimeFilter := RuntimeFilter.all; selectedTags := [] |}.

Definition withGenre (g : string) (m : Movie) : Movie :=
  {| id := id m; title := title m; year := year m; genre := Some (js g);
     rating := rating m; description := description m;
     imdbRating := imdbRating m; runtime := runtime m;
     userRating := userRating m; tags := tags m;
     communityRating := communityRating m |}.

Definition withRating (r : Q) (m : Movie) : Movie :=
  {| id := id m; title := title m; year := year m; genre := genre m;
     rating := Some r; description := description m;
     imdbRating := imdbRating m; runtime := runtime m;
     userRating := userRating m; tags := tags m;
     communityRating := communityRating m |}.

Definition withRuntime (r : string) (m : Movie) : Movie :=
  {| id := id m; title := title m; year := year m; genre := genre m;
     rating := rating m; description := description m;
     imdbRating := imdbRating m; runtime := Some (js r);
     userRating := userRating m; tags := tags m;
     communityRating := communityRating m |}.

(** A runtime text without a digit. *)
Definition noDigits (r : jsstring) : bool := forallb (fun c => negb (isDigit c)) r.

(** [st'] has the predicates of [st] and possibly more: a selection, query
    or bucket of [st] is either inactive or kept as it is, and the rating
    range of [st'] lies within that of [st]. *)
Definition addsPredicates (st st' : HomeState) : Prop :=
  movies st' = movies st
  /\ toWatchMovies st' = toWatchMovies st
  /\ currentView st' = currentView st
  /\ (selectedGenres st = [] \/ selectedGenres st' = selectedGenres st)
  /\ (selectedYears st = [] \/ selectedYears st' = selectedYears st)
  /\ (selectedTags st = [] \/ selectedTags st' = selectedTags st)
  /\ (searchQuery st = [] \/ searchQuery st' = searchQuery st)
  /\ (runtimeFilter st = RuntimeFilter.all \/ runtimeFilter st' = runtimeFilter st)
  /\ (fst (imdbRatingRange st) <= fst (imdbRatingRange st'))%Q
  /\ (snd (imdbRatingRange st') <= snd (imdbRatingRange st))%Q.

(** The size of a result set. *)
Definition sizeOf (c : completion (list Movie)) : nat :=
  match c with
  | Normal l => List.length l
  | TypeError => 0
  end.





(** The condition of the [find] callback. *)
Definition Matches `{Engine} (titleSlug : jsstring) (m : Movie) : Prop :=
  createSlug (title m) = titleSlug
  \/ toLowerCase (title m) = decodeSlug titleSlug.

(** Some comma-separated token of the entry's genre text is, trimmed and
    lower-cased, the genre [first]. *)
Definition hasGenreToken `{Engine} (first : jsstring) (m : Movie) : Prop :=
  exists g tok,
    genre m = Some g /\ In tok (split comma g)
    /\ toLowerCase (trim tok) = first.

(** A shelf for the recommended list: "The Room" and six dramas. *)
Definition drama (i : Z) (t : string) : Movie :=
  withGenre "Drama, Crime" (withRating (inject_Z 7) (entry i t)).

Definition shelf : list Movie :=
  [withGenre " drama ,Romance" (entry 1 "The Room");
   drama 2 "a"; drama 3 "b"; drama 4 "c"; drama 5 "d"; drama 6 "e";
   drama 7 "f"; entry 8 "g"].

End CatalogSpec.

(** ** Accounts *)

Module ServerSpec.
Import stdpp.base stdpp.gmap.
Import Server.

(** The record that a profile update with a new e-mail address and a new
    password writes under the id and the user name. *)
Definition updatedRecord `{Engine} (u : User) (email' password' : jsstring)
    (profilePicture' : option jsstring) : User :=
  let withMail := withPassword password' (withEmail (toLowerCase email') u) in
  match profilePicture' with
  | Some pic => withProfilePicture pic withMail
  | None => withMail
  end.

(** The record that a sign-up stores. *)
Definition newUser `{Engine} (env : Env) (username' email' password' : jsstring) : User :=
  {| id := newUserId env; username := username';
     email := toLowerCase email'; password := password';
     profilePicture := None; createdAt := now env |}.

(** An account, and the store once it has signed up. *)
Definition request : Env := {| now := 0; newUserId := js "user_1"; aborted := false |}.

Definition registered : gmap jsstring User :=
  snd (signup (H := asciiEngine) request (Some (js "Alice"))
         (Some (js "alice@example.org")) (Some (js "old-secret")) ∅).

Definition alice : User :=
  {| id := js "user_1"; username := js "Alice"; email := js "alice@example.org";
     password := js "old-secret"; profilePicture := None; createdAt := 0 |}.

End ServerSpec.

(** * Properties *)

(** ** Strings *)

Section StringFacts.
Local Open Scope N_scope.

Lemma replaceRunsFrom_In p r b s c :
  In c (replaceRunsFrom p r b s) -> c = r \/ (In c s /\ p c = false).
Proof.
  revert b. induction s as [|x s IH]; simpl; intros b Hin; [tauto|].
  destruct (p x) eqn:Px.
  - destruct b; simpl in Hin.
    + apply IH in Hin. tauto.
    + destruct Hin as [<-|Hin]; [tauto|]. apply IH in Hin. tauto.
  - simpl in Hin. destruct Hin as [<-|Hin]; [tauto|]. apply IH in Hin. tauto.
Qed.

Lemma trimStart_In s c : In c (trimStart s) -> In c s.
Proof.
  induction s as [|x s IH]; simpl; [tauto|].
  destruct (isWhiteSpace x); simpl; tauto.
Qed.

Lemma trim_In s c : In c (trim s) -> In c s.
Proof.
  unfold trim, trimEnd. intros Hin.
  apply in_rev in Hin. apply trimStart_In in Hin.
  apply in_rev in Hin. now apply trimStart_In.
Qed.

Lemma trimStart_id s :
  Forall (fun c => isWhiteSpace c = false) s -> trimStart s = s.
Proof. destruct 1 as [|x s Hx _]; simpl; [reflexivity | now rewrite Hx]. Qed.

(** [trim()] does nothing to a string without whitespace. *)
Lemma trim_id s :
  Forall (fun c => isWhiteSpace c = false) s -> trim s = s.
Proof.
  intros Hs. unfold trim, trimEnd. rewrite (trimStart_id s Hs).
  rewrite trimStart_id; [apply rev_involutive|].
  apply Forall_rev, Hs.
Qed.

Lemma singleHyphens_cons a b rest :
  singleHyphens (a :: b :: rest)
  = negb (isHyphen a && isHyphen b) && singleHyphens (b :: rest).
Proof. reflexivity. Qed.

Lemma collapse_hyphens_single b s :
  singleHyphens (replaceRunsFrom isHyphen hyphen b s) = true
  /\ (b = true -> headIsHyphen (replaceRunsFrom isHyphen hyphen b s) = false).
Proof.
  revert b. induction s as [|x s IH]; intros b; simpl; [auto|].
  destruct (isHyphen x) eqn:Hx.
  - destruct b.
    + apply IH.
    + destruct (IH true) as [IH1 IH2]. split; [|discriminate].
      specialize (IH2 eq_refl).
      destruct (replaceRunsFrom isHyphen hyphen true s) as [|y r] eqn:E;
        [reflexivity|].
      simpl in IH2. rewrite singleHyphens_cons, IH2, andb_false_r. exact IH1.
  - destruct (IH false) as [IH1 _]. split.
    + destruct (replaceRunsFrom isHyphen hyphen false s) as [|y r] eqn:E;
        [reflexivity|].
      rewrite singleHyphens_cons, Hx. exact IH1.
    + intros _. exact Hx.
Qed.

End StringFacts.

(** The literal of an ASCII source string is ASCII text. *)
Lemma isAsciib_sound s : isAsciib s = true -> isAscii s.
Proof.
  unfold isAsciib, isAscii. rewrite forallb_forall, Forall_forall.
  intros Hs c Hc. apply N.ltb_lt. now apply Hs.
Qed.

(** On ASCII titles every engine computes the slug of [asciiEngine]. *)
Lemma createSlug_ascii `{Engine} t :
  isAsciib t = true -> createSlug t = createSlug (H := asciiEngine) t.
Proof.
  intros Ht. unfold createSlug.
  now rewrite (toLowerCase_ascii _ (isAsciib_sound _ Ht)).
Qed.

Section SlugFacts.
Context `{Engine}.

(** The strings that [createSlug] hands to [trim()] hold no whitespace. *)
Lemma untrimmed_slug_chars title c :
  In c (replaceRuns isHyphen hyphen
          (replaceRuns isWhiteSpace hyphen
             (removeUnless (fun c => isWordChar c || isWhiteSpace c || isHyphen c)
                (toLowerCase title)))) ->
  isLowerWord c = true \/ c = hyphen.
Proof.
  intros Hin. unfold replaceRuns in Hin.
  apply replaceRunsFrom_In in Hin as [->|[Hin _]]; [now right|].
  apply replaceRunsFrom_In in Hin as [->|[Hin Hws]]; [now right|].
  unfold removeUnless in Hin. apply filter_In in Hin as [Hin Hkeep].
  apply toLowerCase_no_upper in Hin.
  unfold isWordChar in Hkeep. rewrite Hin, Hws in Hkeep.
  rewrite !orb_false_r in Hkeep.
  apply orb_true_iff in Hkeep as [Hw|Hh]; [now left|].
  right. now apply N.eqb_eq.
Qed.

Lemma isLowerWord_range c : isLowerWord c = true -> (48 <= c <= 122)%N.
Proof.
  unfold isLowerWord, isDigit, between.
  rewrite !orb_true_iff, !andb_true_iff, !N.leb_le, N.eqb_eq. lia.
Qed.

Lemma isWhiteSpace_printable c : (33 <= c < 160)%N -> isWhiteSpace c = false.
Proof.
  intros Hc. unfold isWhiteSpace, between.
  repeat apply orb_false_intro;
    first [ apply N.eqb_neq; lia
          | apply andb_false_iff; left; apply N.leb_gt; lia
          | apply andb_false_iff; right; apply N.leb_gt; lia ].
Qed.

Lemma lowerWord_or_hyphen_not_space c :
  isLowerWord c = true \/ c = hyphen -> isWhiteSpace c = false.
Proof.
  intros [Hc| ->]; [|reflexivity].
  apply isLowerWord_range in Hc. apply isWhiteSpace_printable. lia.
Qed.

(** The final [trim()] of [createSlug] never removes anything. *)
Lemma createSlug_trim_is_noop title :
  createSlug title =
  replaceRuns isHyphen hyphen
    (replaceRuns isWhiteSpace hyphen
       (removeUnless (fun c => isWordChar c || isWhiteSpace c || isHyphen c)
          (toLowerCase title))).
Proof.
  unfold createSlug. apply trim_id. apply Forall_forall.
  intros c Hc. apply lowerWord_or_hyphen_not_space.
  now apply untrimmed_slug_chars with (title := title).
Qed.

(** A slug holds lower-case word characters and hyphens only. *)
Lemma createSlug_chars title c :
  In c (createSlug title) -> isLowerWord c = true \/ c = hyphen.
Proof.
  rewrite createSlug_trim_is_noop. apply untrimmed_slug_chars.
Qed.

(** A slug never has two hyphens in a row. *)
Lemma createSlug_single_hyphens title :
  singleHyphens (createSlug title) = true.
Proof.
  rewrite createSlug_trim_is_noop. unfold replaceRuns at 1.
  apply collapse_hyphens_single.
Qed.

End SlugFacts.

(** Evaluate the slugs of ASCII literals with the ASCII tables. *)
Ltac slug_ascii :=
  repeat match goal with
         | |- context [@createSlug ?E ?t] =>
             lazymatch E with
             | asciiEngine => fail
             | _ => rewrite (@createSlug_ascii E t) by reflexivity
             end
         end.

(** C2 (as the code has it). The slug keeps a hyphen at either end: a
    title that ends, or starts, with a blank next to punctuation yields a slug
    with a trailing, or leading, hyphen, because the final [trim()] strips
    whitespace and by then none is left. *)
Theorem createSlug_keeps_edge_hyphens `{Engine} :
  createSlug (js "What If... ?") = js "what-if-"
  /\ lastIsHyphen (createSlug (js "What If... ?")) = true
  /\ createSlug (js " Up") = js "-up"
  /\ headIsHyphen (createSlug (js " Up")) = true.
Proof.
  slug_ascii. repeat split; vm_compute; reflexivity.
Qed.

(** C10. The title "???" is not empty and holds only units that the encoder
    strips; its slug is the empty string, so its detail link is "/movie/"
    with nothing behind it. ([createSlug] is a total function: it returns a
    string for every string.) *)
Theorem createSlug_can_be_empty `{Engine} :
  exists title : jsstring,
    title <> []
    /\ forallb isStripped title = true
    /\ createSlug title = []
    /\ movieLink title = js "/movie/".
Proof.
  exists (js "???"). unfold movieLink.
  slug_ascii. repeat split; try (vm_compute; reflexivity). discriminate.
Qed.

(** ** Sorting *)

Section SortFacts.
Context {A S : Type}.
Variable comparefn : A -> A -> S -> number * S.

(** Whatever the comparator answers, the result holds the same entries. *)
Lemma insert_Permutation x l s :
  Permutation (fst (insert comparefn x l s)) (x :: l).
Proof.
  revert s. induction l as [|y l IH]; intros s; simpl; [reflexivity|].
  destruct (comparefn x y s) as [v s1].
  destruct (isPositive v); simpl; [|reflexivity].
  specialize (IH s1). destruct (insert comparefn x l s1) as [l' s2]. simpl in *.
  rewrite IH. apply perm_swap.
Qed.

Lemma sortWith_Permutation l s :
  Permutation (fst (sortWith comparefn l s)) l.
Proof.
  revert s. induction l as [|x l IH]; intros s; simpl; [reflexivity|].
  specialize (IH s). destruct (sortWith comparefn l s) as [l' s1]. simpl in *.
  rewrite insert_Permutation. now apply perm_skip.
Qed.

(** A comparator that answers by an order [R] on the entries it meets:
    a positive answer means the second entry goes first. *)
Variable P : A -> Prop.
Variable R : A -> A -> Prop.
Hypothesis R_trans : forall x y z, R x y -> R y z -> R x z.
Hypothesis positive_swaps :
  forall x y s, P x -> P y -> isPositive (fst (comparefn x y s)) = true -> R y x.
Hypothesis otherwise_keeps :
  forall x y s, P x -> P y -> isPositive (fst (comparefn x y s)) = false -> R x y.

Lemma insert_sorted x l s :
  P x -> Forall P l -> StronglySorted R l ->
  StronglySorted R (fst (insert comparefn x l s)).
Proof.
  intros Px. revert s.
  induction l as [|y l IH]; intros s Pl Hs; simpl.
  - constructor; constructor.
  - inversion Pl as [|? ? Py Pl']; subst.
    inversion Hs as [|? ? Hs' Hy]; subst.
    destruct (comparefn x y s) as [v s1] eqn:E.
    assert (Ev : v = fst (comparefn x y s)) by now rewrite E.
    destruct (isPositive v) eqn:Hv; simpl.
    + specialize (IH s1 Pl' Hs').
      pose proof (insert_Permutation x l s1) as Hperm.
      destruct (insert comparefn x l s1) as [l' s2]. simpl in *.
      constructor; [exact IH|].
      apply Forall_forall. intros z Hz.
      apply (Permutation_in _ Hperm) in Hz. destruct Hz as [<-|Hz].
      * apply positive_swaps with (s := s); auto. now rewrite <- Ev.
      * rewrite Forall_forall in Hy. now apply Hy.
    + constructor; [exact Hs|].
      assert (Rxy : R x y).
      { apply otherwise_keeps with (s := s); auto. now rewrite <- Ev. }
      constructor; [exact Rxy|].
      apply Forall_forall. intros z Hz.
      rewrite Forall_forall in Hy. eapply R_trans; eauto.
Qed.

Lemma sortWith_sorted l s :
  Forall P l -> StronglySorted R (fst (sortWith comparefn l s)).
Proof.
  revert s. induction l as [|x l IH]; intros s Pl; simpl; [constructor|].
  inversion Pl as [|? ? Px Pl']; subst.
  specialize (IH s Pl').
  pose proof (sortWith_Permutation l s) as Hperm.
  destruct (sortWith comparefn l s) as [l' s1]. simpl in *.
  apply insert_sorted; auto.
  apply Forall_forall. intros z Hz.
  apply (Permutation_in _ Hperm) in Hz.
  rewrite Forall_forall in Pl'. now apply Pl'.
Qed.

End SortFacts.

Lemma sort_Permutation {A : Type} (cmp : A -> A -> number) l :
  Permutation (sort cmp l) l.
Proof. apply sortWith_Permutation. Qed.

Lemma sort_sorted {A : Type} (cmp : A -> A -> number) (P : A -> Prop)
    (R : A -> A -> Prop) :
  (forall x y z, R x y -> R y z -> R x z) ->
  (forall x y, P x -> P y -> isPositive (cmp x y) = true -> R y x) ->
  (forall x y, P x -> P y -> isPositive (cmp x y) = false -> R x y) ->
  forall l, Forall P l -> StronglySorted R (sort cmp l).
Proof.
  intros Ht Hp Hk l Pl. unfold sort.
  apply sortWith_sorted with (P := P); auto.
Qed.

(** ** Arrays filtered by a callback that may throw *)

Lemma filterM_Normal {A : Type} (f : A -> completion bool) l r :
  filterM f l = Normal r ->
  r = List.filter (fun x => match f x with Normal true => true | _ => false end) l
  /\ Forall (fun x => exists b, f x = Normal b) l.
Proof.
  revert r. induction l as [|x l IH]; simpl; intros r Hr.
  - inversion Hr. split; [reflexivity|constructor].
  - destruct (f x) as [b|] eqn:Fx; [|discriminate].
    destruct (filterM f l) as [r'|]; [|discriminate].
    destruct (IH r' eq_refl) as [-> Hall]. inversion Hr; subst.
    split; [now destruct b|]. constructor; eauto.
Qed.

Lemma filterM_total {A : Type} (f : A -> completion bool) l :
  Forall (fun x => exists b, f x = Normal b) l ->
  exists r, filterM f l = Normal r.
Proof.
  induction 1 as [|x l [b Hb] _ [r Hr]]; simpl; [eauto|].
  rewrite Hb, Hr. eauto.
Qed.

Lemma filter_length_le {A : Type} (f g : A -> bool) l :
  (forall x, In x l -> f x = true -> g x = true) ->
  (List.length (List.filter f l) <= List.length (List.filter g l))%nat.
Proof.
  induction l as [|x l IH]; simpl; intros Himp; [lia|].
  assert (IH' := IH (fun y Hy => Himp y (or_intror Hy))).
  destruct (f x) eqn:Fx.
  - rewrite (Himp x (or_introl eq_refl) Fx). simpl. lia.
  - destruct (g x); simpl; lia.
Qed.

(** ** The catalogue *)

Module CatalogProps.
Import Catalog CatalogSpec.

Section FilterFacts.
Context `{Engine}.

(** The callback throws exactly when a non-empty query is not found in the
    title and there is no description to look into. *)
Lemma passes_throws st m :
  passes st m = TypeError <->
  searchQuery st <> []
  /\ includes (toLowerCase (searchQuery st)) (toLowerCase (title m)) = false
  /\ description m = None.
Proof.
  unfold passes, searchMatch.
  destruct (jsstring_eqb (searchQuery st) []) eqn:Eq.
  - apply jsstring_eqb_eq in Eq. split; [discriminate|]. intros [Hne _]. congruence.
  - assert (Hne : searchQuery st <> []).
    { intros Heq. apply jsstring_eqb_eq in Heq. congruence. }
    destruct (includes _ (toLowerCase (title m))).
    + split; [discriminate|]. intros (_ & Hf & _). discriminate.
    + destruct (description m).
      * split; [discriminate|]. intros (_ & _ & Hd). discriminate.
      * tauto.
Qed.

Lemma passes_with_description st m :
  description m <> None -> exists b, passes st m = Normal b.
Proof.
  intros Hd. destruct (passes st m) as [b|] eqn:E; [eauto|].
  apply passes_throws in E. tauto.
Qed.

Lemma passes_true st m :
  passes st m = Normal true ->
  genreMatch st m = true /\ yearMatch st m = true
  /\ searchMatch st m = Normal true /\ ratingMatch st m = true
  /\ runtimeMatch st m = true /\ tagMatch st m = true.
Proof.
  unfold passes. destruct (searchMatch st m) as [b|]; [|discriminate].
  intros Hp. inversion Hp as [Hb]. rewrite Hb.
  repeat (apply andb_true_iff in Hb as [Hb ?]). subst. tauto.
Qed.

(** C1 (as the code has it). An entry whose [imdbRating] and [rating] are
    both absent fails the rating filter for every range, the full range
    [0, 10] included: the comparison of [undefined] with a bound is false.
    The callback does not throw on it as long as the entry has a
    description, and its verdict is then [false]. *)
Theorem absent_rating_fails_every_range st m :
  imdbRating m = None -> rating m = None ->
  ratingMatch st m = false
  /\ passes st m <> Normal true
  /\ (description m <> None -> passes st m = Normal false).
Proof.
  intros Hi Hr.
  assert (Hrm : ratingMatch st m = false).
  { unfold ratingMatch, movieRating. now rewrite Hi, Hr. }
  split; [exact Hrm|]. split.
  - intros Hp. apply passes_true in Hp. destruct Hp as (_ & _ & _ & Hp & _).
    congruence.
  - intros Hd. destruct (passes_with_description st m Hd) as [b Hb].
    rewrite Hb. f_equal. unfold passes in Hb.
    destruct (searchMatch st m); [|discriminate].
    inversion Hb. rewrite Hrm. now rewrite !andb_false_r.
Qed.

(** The filter stage returns a list when every entry it visits has a
    description, whatever else is missing. *)
Lemma filteredMovies_total st :
  Forall (fun m => description m <> None) (viewMovies st) ->
  exists l, filteredMovies st = Normal l.
Proof.
  intros Hd. unfold filteredMovies. apply filterM_total.
  eapply Forall_impl; [|exact Hd].
  intros m. apply passes_with_description.
Qed.

(** The rating filter looks at [rating] when [imdbRating] is absent. *)
Lemma ratingMatch_fallback st m r :
  imdbRating m = None -> rating m = Some r ->
  ratingMatch st m
  = Qle_bool (fst (imdbRatingRange st)) r && Qle_bool r (snd (imdbRatingRange st)).
Proof.
  intros Hi Hr. unfold ratingMatch, movieRating. now rewrite Hi, Hr.
Qed.

End FilterFacts.

Lemma absent_rating_fails_every_range_witness :
  imdbRating (entry 1 "Untitled") = None
  /\ rating (entry 1 "Untitled") = None
  /\ ratingMatch (initialState []) (entry 1 "Untitled") = false
  /\ passes (H := asciiEngine) (initialState []) (entry 1 "Untitled") <> Normal true
  /\ (description (entry 1 "Untitled") <> None ->
      passes (H := asciiEngine) (initialState []) (entry 1 "Untitled") = Normal false).
Proof.
  split; [reflexivity|]. split; [reflexivity|].
  apply (absent_rating_fails_every_range (H := asciiEngine)
           (initialState []) (entry 1 "Untitled")); reflexivity.
Defined.

(** C1 as stated fails: with the default range [0, 10] an entry without
    [imdbRating] and without [rating] does not pass the rating filter and is
    not in the filtered list. *)
Lemma absent_rating_rejected_by_full_range :
  let m := entry 1 "Untitled" in
  let st := initialState [m] in
  imdbRating m = None /\ rating m = None
  /\ imdbRatingRange st = (0%Q, inject_Z 10)
  /\ ratingMatch st m = false
  /\ filteredMovies (H := asciiEngine) st = Normal [].
Proof. repeat split. Qed.

(** *** Runtime buckets *)

Lemma matchDigits_noDigits r : noDigits r = true -> matchDigits r = None.
Proof.
  induction r as [|c r IH]; simpl; [reflexivity|].
  intros Hr. apply andb_true_iff in Hr as [Hc Hr].
  apply negb_true_iff in Hc. rewrite Hc. auto.
Qed.

Lemma parseRuntime_noDigits r : noDigits r = true -> parseRuntime (Some r) = 0%N.
Proof.
  intros Hr. unfold parseRuntime. destruct r as [|c r]; [reflexivity|].
  now rewrite (matchDigits_noDigits (c :: r) Hr).
Qed.

Lemma matchSeason_noDigits r : noDigits r = true -> matchSeason r = None.
Proof.
  induction r as [|c r IH]; [reflexivity|].
  intros Hr. simpl in Hr. apply andb_true_iff in Hr as [Hc Hr].
  apply negb_true_iff in Hc.
  change (matchSeason (c :: r))
    with (if isDigit c && spacesThenSeason (dropDigits (c :: r))
          then Some (takeDigits (c :: r)) else matchSeason r).
  rewrite Hc. simpl. auto.
Qed.

Lemma includes_digit_first needle r :
  match needle with
  | d :: _ => isDigit d
  | [] => false
  end = true ->
  noDigits r = true -> includes needle r = false.
Proof.
  destruct needle as [|d needle]; [discriminate|].
  intros Hd. induction r as [|c r IH]; [reflexivity|].
  intros Hr. simpl in Hr. apply andb_true_iff in Hr as [Hc Hr].
  apply negb_true_iff in Hc. simpl.
  destruct (N.eqb_spec d c) as [->|_]; [congruence|]. simpl. auto.
Qed.

Section RuntimeFacts.
Context `{Engine}.

(** An entry whose runtime is absent, or holds no digit, is in no bucket. *)
Lemma unparsable_runtime_fails_buckets st m :
  runtimeFilter st <> RuntimeFilter.all ->
  match runtime m with
  | Some r => noDigits r = true
  | None => True
  end ->
  runtimeMatch st m = false.
Proof.
  intros Hall Hr. unfold runtimeMatch, isSeason.
  destruct (runtime m) as [r|].
  - rewrite (parseRuntime_noDigits r Hr), (matchSeason_noDigits r Hr).
    rewrite (includes_digit_first (js "1 Season") r eq_refl Hr).
    assert (Hne : jsstring_eqb r (js "1 Seasons") = false).
    { destruct (jsstring_eqb r (js "1 Seasons")) eqn:E; [|reflexivity].
      apply jsstring_eqb_eq in E. subst r. discriminate Hr. }
    rewrite Hne.
    destruct (runtimeFilter st); try congruence; simpl;
      now rewrite ?andb_false_r.
  - destruct (runtimeFilter st); try reflexivity; congruence.
Qed.

(** On ASCII runtime texts every engine gives the verdict of the ASCII
    tables. *)
Lemma runtimeMatch_ascii st m :
  match runtime m with
  | Some r => isAsciib r = true
  | None => True
  end ->
  runtimeMatch st m = runtimeMatch (H := asciiEngine) st m.
Proof.
  intros Hr. unfold runtimeMatch, isSeason.
  destruct (runtime m) as [[|c r]|]; try reflexivity.
  now rewrite (toLowerCase_ascii _ (isAsciib_sound _ Hr)).
Qed.

(** C3 (as the code has it). The [oneSeason] bucket takes every runtime
    text that contains "1 Season" anywhere, so an entry with 11 seasons
    passes it. *)
Theorem oneSeason_accepts_eleven_seasons st m :
  runtimeFilter st = RuntimeFilter.oneSeason ->
  runtime m = Some (js "11 Seasons") ->
  runtimeMatch st m = true.
Proof.
  intros Hf Hr. rewrite runtimeMatch_ascii by now rewrite Hr.
  unfold runtimeMatch, isSeason. rewrite Hf, Hr. vm_compute. reflexivity.
Qed.

(** The same entry is in the [multiSeason] bucket, whose pattern reads the
    number. *)
Lemma multiSeason_accepts_eleven_seasons st m :
  runtimeFilter st = RuntimeFilter.multiSeason ->
  runtime m = Some (js "11 Seasons") ->
  runtimeMatch st m = true.
Proof.
  intros Hf Hr. rewrite runtimeMatch_ascii by now rewrite Hr.
  unfold runtimeMatch, isSeason. rewrite Hf, Hr. vm_compute. reflexivity.
Qed.

(** "1 Season" and "1 Seasons" are in the [oneSeason] bucket and not in
    the [multiSeason] one. *)
Lemma one_season_buckets st m :
  runtime m = Some (js "1 Season") \/ runtime m = Some (js "1 Seasons") ->
  (runtimeFilter st = RuntimeFilter.oneSeason -> runtimeMatch st m = true)
  /\ (runtimeFilter st = RuntimeFilter.multiSeason -> runtimeMatch st m = false).
Proof.
  intros [Hr|Hr]; split; intros Hf;
    (rewrite runtimeMatch_ascii by now rewrite Hr);
    unfold runtimeMatch, isSeason; rewrite Hf, Hr; vm_compute; reflexivity.
Qed.

End RuntimeFacts.

Lemma oneSeason_accepts_eleven_seasons_witness :
  let st := setRuntimeFilter RuntimeFilter.oneSeason (initialState []) in
  let m := withRuntime "11 Seasons" (entry 1 "The Simpsons") in
  runtimeFilter st = RuntimeFilter.oneSeason
  /\ runtime m = Some (js "11 Seasons")
  /\ runtimeMatch (H := asciiEngine) st m = true.
Proof.
  intros st m. split; [reflexivity|]. split; [reflexivity|].
  apply (oneSeason_accepts_eleven_seasons (H := asciiEngine) st m); reflexivity.
Defined.

(** *** Monotonicity of the filter stage *)

Section Monotonicity.
Context `{Engine}.

Lemma geq_weaken a lo lo' :
  (lo <= lo')%Q -> geq a (Some lo') = true -> geq a (Some lo) = true.
Proof.
  destruct a as [q|]; simpl; [|discriminate].
  rewrite !Qle_bool_iff. intros. lra.
Qed.

Lemma leq_weaken a hi hi' :
  (hi' <= hi)%Q -> leq a (Some hi') = true -> leq a (Some hi) = true.
Proof.
  destruct a as [q|]; simpl; [|discriminate].
  rewrite !Qle_bool_iff. intros. lra.
Qed.

Lemma passes_weaken st st' m b :
  addsPredicates st st' ->
  passes st m = Normal b -> passes st' m = Normal true -> b = true.
Proof.
  intros (_ & _ & _ & Hg & Hy & Ht & Hq & Hr & Hlo & Hhi) Hb Hp.
  apply passes_true in Hp as (Pg & Py & Ps & Pr & Prt & Pt).
  unfold passes in Hb. destruct (searchMatch st m) as [s|] eqn:Es; [|discriminate].
  inversion Hb as [Hb']. clear Hb.
  assert (Gg : genreMatch st m = true).
  { unfold genreMatch in *. destruct Hg as [->| <-]; [reflexivity|exact Pg]. }
  assert (Gy : yearMatch st m = true).
  { unfold yearMatch in *. destruct Hy as [->| <-]; [reflexivity|exact Py]. }
  assert (Gt : tagMatch st m = true).
  { unfold tagMatch in *. destruct Ht as [->| <-]; [reflexivity|exact Pt]. }
  assert (Gs : s = true).
  { unfold searchMatch in Es, Ps. destruct Hq as [Hq|Hq].
    - rewrite Hq in Es. simpl in Es. congruence.
    - rewrite Hq in Ps. congruence. }
  assert (Grt : runtimeMatch st m = true).
  { unfold runtimeMatch in *. destruct Hr as [->| <-]; [reflexivity|exact Prt]. }
  assert (Gr : ratingMatch st m = true).
  { unfold ratingMatch in *. apply andb_true_iff in Pr as [P1 P2].
    apply andb_true_iff. split.
    - eapply geq_weaken; eauto.
    - eapply leq_weaken; eauto. }
  now rewrite Gg, Gy, Gs, Gr, Grt, Gt.
Qed.

(** C4 (as the code has it). Adding predicates to the ones in force -
    selecting genres, years or tags where none was selected, entering a
    query where there was none, choosing a runtime bucket instead of [all],
    narrowing the rating range - never makes the filtered list longer. *)
Theorem adding_predicates_never_grows st st' l l' :
  addsPredicates st st' ->
  filteredMovies st = Normal l ->
  filteredMovies st' = Normal l' ->
  (List.length l' <= List.length l)%nat.
Proof.
  intros Hadd Hl Hl'. unfold filteredMovies in *.
  assert (Hview : viewMovies st' = viewMovies st).
  { destruct Hadd as (Hm & Hw & Hv & _). unfold viewMovies.
    now rewrite Hm, Hw, Hv. }
  rewrite Hview in Hl'.
  apply filterM_Normal in Hl as [-> Hall].
  apply filterM_Normal in Hl' as [-> _].
  apply filter_length_le. intros m Hm Hp.
  rewrite Forall_forall in Hall. destruct (Hall m Hm) as [b Hb].
  rewrite Hb.
  destruct (passes st' m) as [[|]|] eqn:E; try discriminate.
  now rewrite (passes_weaken st st' m b Hadd Hb E).
Qed.

(** Within the genre selection the entries are alternatives: a further
    genre never makes the filtered list shorter. *)
Lemma further_genre_never_shrinks st g l l' :
  selectedGenres st <> [] ->
  filteredMovies st = Normal l ->
  filteredMovies (handleGenreChange g true st) = Normal l' ->
  (List.length l <= List.length l')%nat.
Proof.
  intros Hne Hl Hl'. unfold filteredMovies in *.
  change (viewMovies (handleGenreChange g true st)) with (viewMovies st) in Hl'.
  apply filterM_Normal in Hl as [-> _].
  apply filterM_Normal in Hl' as [-> _].
  apply filter_length_le. intros m Hm Hp.
  destruct (passes st m) as [[|]|] eqn:E; try discriminate.
  apply passes_true in E as (Pg & Py & Ps & Pr & Prt & Pt).
  unfold passes.
  change (searchMatch (handleGenreChange g true st) m) with (searchMatch st m).
  rewrite Ps.
  change (yearMatch (handleGenreChange g true st) m) with (yearMatch st m).
  change (ratingMatch (handleGenreChange g true st) m) with (ratingMatch st m).
  change (runtimeMatch (handleGenreChange g true st) m) with (runtimeMatch st m).
  change (tagMatch (handleGenreChange g true st) m) with (tagMatch st m).
  rewrite Py, Pr, Prt, Pt.
  assert (Gg : genreMatch (handleGenreChange g true st) m = true).
  { unfold genreMatch in *. simpl.
    destruct (selectedGenres st) as [|g0 gs]; [congruence|].
    simpl in Pg. rewrite existsb_app.
    change (existsb (fun g1 => arrayIncludes (movieGenres m) g1) (g0 :: gs))
      with (arrayIncludes (movieGenres m) g0
            || existsb (fun g1 => arrayIncludes (movieGenres m) g1) gs).
    rewrite Pg. apply orb_true_r. }
  now rewrite Gg.
Qed.

End Monotonicity.

Lemma adding_predicates_never_grows_witness :
  let m := withGenre "Comedy" (withRating (inject_Z 7) (entry 1 "Airplane!")) in
  let st := initialState [m] in
  let st' := setSelectedGenres [js "Drama"] st in
  addsPredicates st st'
  /\ filteredMovies (H := asciiEngine) st = Normal [m]
  /\ filteredMovies (H := asciiEngine) st' = Normal []
  /\ (List.length (@nil Movie) <= List.length [m])%nat.
Proof.
  intros m st st'.
  assert (Hadd : addsPredicates st st').
  { unfold addsPredicates. simpl. repeat split; auto; apply Qle_refl. }
  split; [exact Hadd|]. split; [reflexivity|]. split; [reflexivity|].
  apply (adding_predicates_never_grows (H := asciiEngine) st st' [m] []);
    [exact Hadd | reflexivity | reflexivity].
Defined.

(** C4 as stated fails: with "Drama" selected, a catalogue that holds one
    comedy shows nothing; ticking "Comedy" as well makes the comedy
    appear. *)
Lemma further_genre_grows_result :
  let m := withGenre "Comedy" (withRating (inject_Z 7) (entry 1 "Airplane!")) in
  let st := setSelectedGenres [js "Drama"] (initialState [m]) in
  filteredMovies (H := asciiEngine) st = Normal []
  /\ filteredMovies (H := asciiEngine) (handleGenreChange (js "Comedy") true st)
     = Normal [m]
  /\ (sizeOf (filteredMovies (H := asciiEngine) st)
      < sizeOf (filteredMovies (H := asciiEngine)
                  (handleGenreChange (js "Comedy") true st)))%nat.
Proof. repeat split. simpl. lia. Qed.

(** *** The sort stage *)

Section SortStage.
Context `{Engine}.










(** The sort stage keeps the filtered entries, each as often as before. *)
Lemma sortedMovies_Permutation st l filtered :
  filteredMovies st = Normal filtered ->
  sortedMovies st = Normal l ->
  Permutation l filtered.
Proof.
  unfold sortedMovies. intros ->. intros Hs. inversion Hs.
  apply sort_Permutation.
Qed.

(** The sort stage returns a list whenever the filter stage does. *)
Lemma sortedMovies_total st filtered :
  filteredMovies st = Normal filtered -> exists l, sortedMovies st = Normal l.
Proof. unfold sortedMovies. intros ->. eauto. Qed.

End SortStage.


(** *** The page number *)

(** Every handler that the genre, year and tag boxes, the search field and
    the reset button are bound to ends with [setCurrentPage(1)]. *)
Lemma selection_and_search_reset_page st a :
  match a with
  | GenreChange _ _ | ClearGenres | YearChange _ _ | TagChange _ _
  | SearchInput _ | SearchClear | ResetFilters => True
  | _ => False
  end ->
  currentPage (dispatch a st) = 1%Z.
Proof. destruct a; intros Ha; try contradiction; reflexivity. Qed.

(** The sort dropdown is bound to [setSortBy] alone. *)
Lemma sort_change_keeps_page st key :
  currentPage (dispatch (SortChange key) st) = currentPage st.
Proof. reflexivity. Qed.

(** C6 (as the code has it). The rating slider and the runtime buttons are
    bound to [setImdbRatingRange] and [setRuntimeFilter] alone: changing
    either filter leaves the page number where it was, and nothing but the
    filter changes. *)
Theorem rating_and_runtime_change_keep_page st range bucket :
  currentPage (dispatch (ImdbRatingChange range) st) = currentPage st
  /\ currentPage (dispatch (RuntimeChange bucket) st) = currentPage st
  /\ dispatch (ImdbRatingChange range) st = setImdbRatingRange range st
  /\ dispatch (RuntimeChange bucket) st = setRuntimeFilter bucket st.
Proof. repeat split. Qed.

(** On page 3, choosing the [short] bucket is a filter change that does not
    lead to page 1. *)
Lemma runtime_change_on_page_three :
  let st := setCurrentPage 3 (initialState []) in
  changesFilter (RuntimeChange RuntimeFilter.short)
  /\ currentPage (dispatch (RuntimeChange RuntimeFilter.short) st) = 3%Z.
Proof. split; [constructor|reflexivity]. Qed.

(** *** Slug resolution *)

Section Resolution.
Context `{Engine}.

Lemma matchesSlug_true titleSlug m :
  matchesSlug titleSlug m = true <-> Matches titleSlug m.
Proof.
  unfold matchesSlug, Matches.
  now rewrite orb_true_iff, !jsstring_eqb_eq.
Qed.

Lemma matchesSlug_false titleSlug m :
  matchesSlug titleSlug m = false <-> ~ Matches titleSlug m.
Proof.
  rewrite <- matchesSlug_true. destruct (matchesSlug titleSlug m); split;
    congruence.
Qed.

Lemma find_first {A : Type} (f : A -> bool) l :
  match List.find f l with
  | Some x =>
      exists before after,
        l = before ++ x :: after /\ f x = true
        /\ Forall (fun y => f y = false) before
  | None => Forall (fun y => f y = false) l
  end.
Proof.
  induction l as [|y l IH]; simpl; [constructor|].
  destruct (f y) eqn:Fy.
  - exists [], l. repeat split; auto.
  - destruct (List.find f l) as [x|].
    + destruct IH as (before & after & -> & Fx & Hb).
      exists (y :: before), after. repeat split; auto.
    + constructor; auto.
Qed.

(** The entry found is the first one, in list order, whose title encodes
    to the requested slug or lower-cases to the decoded slug; when there is
    none, the result is absent. *)
Lemma foundMovie_split titleSlug allMoviesData :
  match foundMovie titleSlug allMoviesData with
  | Some m =>
      exists before after,
        allMoviesData = before ++ m :: after
        /\ Matches titleSlug m
        /\ Forall (fun other => ~ Matches titleSlug other) before
  | None => Forall (fun other => ~ Matches titleSlug other) allMoviesData
  end.
Proof.
  unfold foundMovie.
  pose proof (find_first (matchesSlug titleSlug) allMoviesData) as Hfind.
  destruct (List.find (matchesSlug titleSlug) allMoviesData) as [m|] eqn:E.
  - destruct Hfind as (before & after & Hl & Hm & Hb).
    exists before, after. repeat split; auto.
    + now apply matchesSlug_true.
    + eapply Forall_impl; [|exact Hb].
      intros other. apply matchesSlug_false.
  - eapply Forall_impl; [|exact Hfind].
    intros other. apply matchesSlug_false.
Qed.

(** C7 (as the code has it). Resolution returns the first entry, in list
    order, whose title encodes to the requested slug or lower-cases to the
    decoded slug, and the page then shows that entry. When no entry does,
    the result is absent and nothing throws, but the state [movie] is left
    as it was: the page shows "Movie not found" only if it showed no entry
    before, and otherwise goes on showing the entry of the previous slug. *)
Theorem failed_lookup_keeps_shown_entry (draws : nat -> Q) (titleSlug : jsstring)
    (moviesData toWatchData : list Movie) (st : MovieDetailPage.State) :
  let allMoviesData := moviesData ++ toWatchData in
  let st' := MovieDetailPage.loadMovieData draws titleSlug
               (Some (moviesData, toWatchData)) st in
  match foundMovie titleSlug allMoviesData with
  | Some m =>
      (exists before after,
         allMoviesData = before ++ m :: after
         /\ Matches titleSlug m
         /\ Forall (fun other => ~ Matches titleSlug other) before)
      /\ MovieDetailPage.screen st' = MovieDetailPage.Shown (MovieDetail m)
  | None =>
      Forall (fun other => ~ Matches titleSlug other) allMoviesData
      /\ MovieDetailPage.movie st' = MovieDetailPage.movie st
      /\ MovieDetailPage.screen st'
         = MovieDetailPage.Shown (render (MovieDetailPage.movie st))
      /\ (MovieDetailPage.screen st' = MovieDetailPage.Shown MovieNotFound
          <-> MovieDetailPage.movie st = None)
  end.
Proof.
  intros allMoviesData st'.
  pose proof (foundMovie_split titleSlug allMoviesData) as Hsplit.
  subst st'. unfold MovieDetailPage.loadMovieData. fold allMoviesData.
  destruct (foundMovie titleSlug allMoviesData) as [m|].
  - split; [exact Hsplit|reflexivity].
  - split; [exact Hsplit|]. split; [reflexivity|].
    unfold MovieDetailPage.screen. simpl. split; [reflexivity|].
    destruct (MovieDetailPage.movie st) as [shown|]; simpl.
    + split; discriminate.
    + split; reflexivity.
Qed.

(** The lookup result is absent exactly when no entry matches. *)
Lemma not_found_iff titleSlug allMoviesData :
  foundMovie titleSlug allMoviesData = None
  <-> Forall (fun other => ~ Matches titleSlug other) allMoviesData.
Proof.
  unfold foundMovie.
  pose proof (find_first (matchesSlug titleSlug) allMoviesData) as Hfind.
  destruct (List.find (matchesSlug titleSlug) allMoviesData) as [m|]; simpl.
  - destruct Hfind as (before & after & -> & Hm & _). split; [discriminate|].
    intros Hall. apply Forall_app in Hall as [_ Hall].
    inversion Hall as [|? ? Hno _]; subst.
    apply matchesSlug_true in Hm. contradiction.
  - split; [|reflexivity]. intros _.
    eapply Forall_impl; [|exact Hfind].
    intros other. apply matchesSlug_false.
Qed.

End Resolution.

(** A page that shows "Se7en" is sent on to the slug of an entry that has
    been deleted since: the lookup finds nothing and the page goes on showing
    "Se7en". A page that has just been mounted shows "Movie not found". *)
Example stale_entry_after_failed_lookup :
  let draws := fun _ : nat => 0%Q in
  let catalogue := [entry 1 "Se7en"] in
  let shown := MovieDetailPage.loadMovieData (H := asciiEngine) draws (js "se7en")
                 (Some (catalogue, [])) MovieDetailPage.mounted in
  let after := MovieDetailPage.loadMovieData (H := asciiEngine) draws (js "the-room")
                 (Some (catalogue, [])) shown in
  let fresh := MovieDetailPage.loadMovieData (H := asciiEngine) draws (js "the-room")
                 (Some (catalogue, [])) MovieDetailPage.mounted in
  foundMovie (H := asciiEngine) (js "the-room") catalogue = None
  /\ MovieDetailPage.screen shown = MovieDetailPage.Shown (MovieDetail (entry 1 "Se7en"))
  /\ MovieDetailPage.screen after = MovieDetailPage.Shown (MovieDetail (entry 1 "Se7en"))
  /\ MovieDetailPage.screen fresh = MovieDetailPage.Shown MovieNotFound.
Proof. repeat split; reflexivity. Qed.

(** Two titles with one slug: only the first can be reached. *)
Example foundMovie_collision :
  let a := entry 1 "Movie: Part 2" in
  let b := entry 2 "Movie Part 2" in
  foundMovie (H := asciiEngine) (js "movie-part-2") [a; b] = Some a
  /\ foundMovie (H := asciiEngine) (js "movie-part-2") [b; a] = Some b
  /\ foundMovie (H := asciiEngine) (js "movie-part-3") [a; b] = None.
Proof. repeat split. Qed.

(** *** The recommended list *)

Section Similar.
Context `{Engine}.

Lemma sharesGenre_token first m :
  sharesGenre first m = true -> hasGenreToken first m.
Proof.
  unfold sharesGenre, hasGenreToken.
  destruct (genre m) as [[|c g]|]; try discriminate.
  intros Hex. apply existsb_exists in Hex as (tok & Hin & Heq).
  apply jsstring_eqb_eq in Heq. eauto.
Qed.

Lemma isCandidate_true found first m :
  isCandidate found first m = true ->
  id m <> id found /\ m <> found /\ hasGenreToken first m.
Proof.
  unfold isCandidate. intros Hc. apply andb_true_iff in Hc as [Hid Hg].
  apply negb_true_iff, Z.eqb_neq in Hid.
  repeat split; [exact Hid| |now apply sharesGenre_token].
  intros ->. now apply Hid.
Qed.

Lemma firstn_In {A : Type} n (l : list A) x : In x (firstn n l) -> In x l.
Proof.
  intros Hin. rewrite <- (firstn_skipn n l). apply in_or_app. now left.
Qed.

(** C9. Whatever the generator draws, the recommended list has at most
    five entries, and each of them is an entry of the catalogue other than
    the reference entry with a genre token that, trimmed and lower-cased, is
    the reference entry's primary genre (its first token, trimmed and
    lower-cased). The list is computed whenever the reference entry has a
    genre. *)
Theorem similarMovies_membership draws found allMoviesData :
  match similarMovies draws found allMoviesData with
  | Some similar =>
      (List.length similar <= 5)%nat
      /\ exists g,
           genre found = Some g
           /\ Forall (fun m =>
                        id m <> id found /\ m <> found
                        /\ In m allMoviesData
                        /\ hasGenreToken (firstGenre g) m) similar
  | None => truthyStr (genre found) = false
  end.
Proof.
  unfold similarMovies.
  destruct (genre found) as [[|c g]|] eqn:Eg; try reflexivity.
  split; [apply firstn_le_length|].
  exists (c :: g). split; [reflexivity|].
  apply Forall_forall. intros m Hm.
  apply firstn_In in Hm.
  apply (Permutation_in _ (sortWith_Permutation _ _ _)) in Hm.
  apply filter_In in Hm as [Hin Hc].
  apply isCandidate_true in Hc as (Hid & Hne & Hg). auto.
Qed.

End Similar.

(** Two runs of the generator over the same catalogue: the lists differ,
    the membership does not. *)
Example similarMovies_two_draws :
  option_map (List.map id)
    (similarMovies (H := asciiEngine) (fun _ => 0%Q) (hd (entry 0 "") shelf) shelf)
  = Some [2; 3; 4; 5; 6]%Z
  /\ option_map (List.map id)
       (similarMovies (H := asciiEngine) (fun _ => 1%Q) (hd (entry 0 "") shelf) shelf)
     = Some [7; 6; 5; 4; 3]%Z.
Proof. split; vm_compute; reflexivity. Qed.

End CatalogProps.

(** ** Accounts *)

Module ServerProps.
Import stdpp.base stdpp.gmap.
Import Server ServerSpec.

Section Keys.
Context `{Engine}.

(** The three key prefixes differ at their sixth unit. *)
Lemma idKey_not_email userId rest : idKey userId <> js "user:email:" ++ rest.
Proof.
  unfold idKey. intros Heq.
  apply (f_equal (fun l => nth 5 l 0%N)) in Heq. vm_compute in Heq. discriminate.
Qed.

Lemma usernameKey_not_email name rest : usernameKey name <> js "user:email:" ++ rest.
Proof.
  unfold usernameKey. intros Heq.
  apply (f_equal (fun l => nth 5 l 0%N)) in Heq. vm_compute in Heq. discriminate.
Qed.

Lemma idKey_not_username userId name : idKey userId <> usernameKey name.
Proof.
  unfold idKey, usernameKey. intros Heq.
  apply (f_equal (fun l => nth 5 l 0%N)) in Heq. vm_compute in Heq. discriminate.
Qed.

End Keys.

Section Profile.
Context `{Engine}.

(** The store after such an update: the old e-mail key is deleted, the new
    one gets the record with the new address only, then the id and the user
    name get the finished record. *)
Lemma updateProfile_new_email_store
    (env : Env) (st : gmap jsstring User) (u : User)
    (userId email' password' : jsstring) (profilePicture' : option jsstring) :
  userId <> [] -> email' <> [] -> password' <> [] -> trim password' <> [] ->
  st !! idKey userId = Some u ->
  email' <> email u ->
  st !! (js "user:email:" ++ toLowerCase email') = None ->
  snd (updateProfile env (Some userId) (Some email') (Some password')
         profilePicture' st)
  = <[usernameKey (username u)
      := updatedRecord u email' password' profilePicture']>
      (<[idKey userId := updatedRecord u email' password' profilePicture']>
         (<[js "user:email:" ++ toLowerCase email'
            := withEmail (toLowerCase email') u]>
            (delete (emailKey (email u)) st))).
Proof.
  intros Hid Hmail Hpw Htrim Hu Hne Hfree.
  destruct userId as [|c0 userId]; [congruence|].
  destruct email' as [|c1 email']; [congruence|].
  destruct password' as [|c2 password']; [congruence|].
  unfold updateProfile, bind, kv_get. rewrite Hu.
  assert (E1 : jsstring_eqb (c1 :: email') (email u) = false).
  { destruct (jsstring_eqb (c1 :: email') (email u)) eqn:E; [|reflexivity].
    apply jsstring_eqb_eq in E. congruence. }
  rewrite E1. cbv beta zeta. unfold jsstring in *. rewrite Hfree. cbv beta iota.
  unfold kv_del, kv_set, finishProfile, bind, kv_set, ret.
  assert (E2 : jsstring_eqb (trim (c2 :: password')) [] = false).
  { destruct (jsstring_eqb (trim (c2 :: password')) []) eqn:E; [|reflexivity].
    apply jsstring_eqb_eq in E. congruence. }
  rewrite E2.
  fold (updatedRecord u (c1 :: email') (c2 :: password') profilePicture').
  unfold finish, ret. now destruct (aborted env).
Qed.

(** C8 (as the code has it). A profile update that changes the e-mail
    address and the password writes the copy under the new e-mail key before
    the password is put into the record, and does not write it again: after
    the update the copies under the id and under the user name carry the new
    password, the copy under the e-mail key still carries the old one. *)
Theorem profile_update_leaves_email_copy_stale
    (env : Env) (st : gmap jsstring User) (u : User)
    (userId email' password' : jsstring) (profilePicture' : option jsstring) :
  userId <> [] -> email' <> [] -> password' <> [] -> trim password' <> [] ->
  st !! idKey userId = Some u ->
  email' <> email u ->
  st !! (js "user:email:" ++ toLowerCase email') = None ->
  let st' := snd (updateProfile env (Some userId) (Some email') (Some password')
                    profilePicture' st) in
  st' !! idKey userId = Some (updatedRecord u email' password' profilePicture')
  /\ st' !! usernameKey (username u)
     = Some (updatedRecord u email' password' profilePicture')
  /\ st' !! (js "user:email:" ++ toLowerCase email')
     = Some (withEmail (toLowerCase email') u)
  /\ password (updatedRecord u email' password' profilePicture') = password'
  /\ password (withEmail (toLowerCase email') u) = password u.
Proof.
  intros Hid Hmail Hpw Htrim Hu Hne Hfree st'. subst st'.
  rewrite (updateProfile_new_email_store env st u userId email' password'
             profilePicture') by assumption.
  repeat split.
  - rewrite lookup_insert_ne by (apply not_eq_sym, idKey_not_username).
    apply lookup_insert_eq.
  - apply lookup_insert_eq.
  - rewrite lookup_insert_ne by apply usernameKey_not_email.
    rewrite lookup_insert_ne by apply idKey_not_email.
    apply lookup_insert_eq.
  - unfold updatedRecord. now destruct profilePicture'.
Qed.

End Profile.

Section Sync.
Context `{Engine}.

Lemma finish_store (env : Env) (r : Response) (st : gmap jsstring User) :
  snd (finish env r st) = st.
Proof. unfold finish, ret. now destruct (aborted env). Qed.

(** The three writes that end every handler reach three different keys. *)
Lemma three_writes (st : gmap jsstring User) (userId name mail : jsstring)
    (u : User) :
  let st' := <[emailKey mail := u]>
               (<[usernameKey name := u]> (<[idKey userId := u]> st)) in
  st' !! idKey userId = Some u
  /\ st' !! usernameKey name = Some u
  /\ st' !! emailKey mail = Some u.
Proof.
  intros st'. subst st'. repeat split.
  - rewrite lookup_insert_ne
      by (unfold emailKey; apply not_eq_sym, idKey_not_email).
    rewrite lookup_insert_ne by (apply not_eq_sym, idKey_not_username).
    apply lookup_insert_eq.
  - rewrite lookup_insert_ne
      by (unfold emailKey; apply not_eq_sym, usernameKey_not_email).
    apply lookup_insert_eq.
  - apply lookup_insert_eq.
Qed.

(** A password reset leaves the three copies of the record identical. *)
Lemma resetPassword_in_sync (env : Env) (st : gmap jsstring User) (u : User)
    (email' newPassword : jsstring) :
  email' <> [] -> newPassword <> [] ->
  st !! emailKey email' = Some u ->
  inSync (snd (resetPassword env (Some email') (Some newPassword) st))
         (withPassword newPassword u).
Proof.
  intros Hmail Hpw Hu.
  destruct email' as [|c1 email']; [congruence|].
  destruct newPassword as [|c2 newPassword]; [congruence|].
  unfold resetPassword, bind, kv_get. unfold jsstring in *. rewrite Hu.
  unfold kv_set. cbv beta iota. rewrite finish_store.
  apply (three_writes st (id u) (username u) (email u)
           (withPassword (c2 :: newPassword) u)).
Qed.

(** What the second half of a profile update makes of the record. *)
Lemma finished_record_fields (u : User) (password' profilePicture' : option jsstring) :
  let final :=
    match profilePicture' with
    | Some pic =>
        withProfilePicture pic
          match password' with
          | Some ((_ :: _) as pw) =>
              if jsstring_eqb (trim pw) [] then u else withPassword pw u
          | _ => u
          end
    | None =>
        match password' with
        | Some ((_ :: _) as pw) =>
            if jsstring_eqb (trim pw) [] then u else withPassword pw u
        | _ => u
        end
    end in
  id final = id u /\ username final = username u /\ email final = email u.
Proof.
  destruct password' as [[|c p]|], profilePicture' as [pic|]; simpl;
    try destruct (jsstring_eqb (trim (c :: p)) []); simpl; auto.
Qed.

(** A profile update that keeps the e-mail address leaves the three copies
    identical, whatever else it changes. *)
Lemma updateProfile_same_email_in_sync (env : Env) (st : gmap jsstring User)
    (u : User) (userId : jsstring) (password' profilePicture' : option jsstring) :
  userId <> [] -> id u = userId ->
  st !! idKey userId = Some u ->
  exists final,
    inSync (snd (updateProfile env (Some userId) None password' profilePicture' st))
           final
    /\ id final = id u /\ username final = username u /\ email final = email u.
Proof.
  intros Hid Hu Hst.
  destruct userId as [|c0 userId]; [congruence|].
  unfold updateProfile, bind, kv_get. unfold jsstring in *. rewrite Hst.
  unfold finishProfile, bind, kv_set, ret. cbv beta iota zeta.
  rewrite finish_store.
  destruct (finished_record_fields u password' profilePicture') as (E1 & E2 & E3).
  cbv zeta in E1, E2, E3.
  match goal with
  | |- context [<[idKey _ := ?f]> st] => set (final := f) in *
  end.
  exists final. split; [|auto].
  unfold inSync. rewrite E1, E2, E3, Hu.
  apply (three_writes st (c0 :: userId) (username u) (email u) final).
Qed.

End Sync.

Section Signup.
Context `{Engine}.

(** A sign-up for a free user name and a free e-mail address stores the same
    record under the id, the lower-cased user name and the lower-cased
    e-mail address. *)
Lemma signup_stores_three_copies (env : Env) (st : gmap jsstring User)
    (username' email' password' : jsstring) :
  username' <> [] -> email' <> [] -> password' <> [] ->
  st !! usernameKey username' = None ->
  st !! emailKey email' = None ->
  let st' := snd (signup env (Some username') (Some email') (Some password') st) in
  let user := newUser env username' email' password' in
  st' !! idKey (id user) = Some user
  /\ st' !! usernameKey (username user) = Some user
  /\ st' !! (js "user:email:" ++ email user) = Some user.
Proof.
  intros Hn Hm Hp Hfree1 Hfree2 st' user. subst st'.
  destruct username' as [|c0 username']; [congruence|].
  destruct email' as [|c1 email']; [congruence|].
  destruct password' as [|c2 password']; [congruence|].
  unfold signup, bind, kv_get. unfold jsstring in *.
  rewrite Hfree1. cbv beta iota. rewrite Hfree2. cbv beta iota.
  unfold kv_set. cbv beta iota. rewrite finish_store.
  fold (newUser env (c0 :: username') (c1 :: email') (c2 :: password')).
  fold user. repeat split.
  - rewrite lookup_insert_ne
      by (unfold emailKey; apply not_eq_sym, idKey_not_email).
    rewrite lookup_insert_ne by (apply not_eq_sym, idKey_not_username).
    apply lookup_insert_eq.
  - rewrite lookup_insert_ne
      by (unfold emailKey; apply not_eq_sym, usernameKey_not_email).
    apply lookup_insert_eq.
  - apply lookup_insert_eq.
Qed.

End Signup.

(** After sign-up the three copies are there and identical. *)
Example signup_in_sync : inSync (H := asciiEngine) registered alice.
Proof. repeat split; vm_compute; reflexivity. Qed.

Lemma profile_update_leaves_email_copy_stale_witness :
  let st' := snd (updateProfile (H := asciiEngine) request (Some (js "user_1"))
                    (Some (js "Alice@Example.com")) (Some (js "new-secret"))
                    None registered) in
  st' !! idKey (js "user_1")
  = Some (updatedRecord (H := asciiEngine) alice (js "Alice@Example.com")
            (js "new-secret") None)
  /\ st' !! usernameKey (H := asciiEngine) (username alice)
     = Some (updatedRecord (H := asciiEngine) alice (js "Alice@Example.com")
               (js "new-secret") None)
  /\ st' !! (js "user:email:" ++ toLowerCase (Engine := asciiEngine) (js "Alice@Example.com"))
     = Some (withEmail (toLowerCase (Engine := asciiEngine) (js "Alice@Example.com")) alice)
  /\ password (updatedRecord (H := asciiEngine) alice (js "Alice@Example.com")
                 (js "new-secret") None) = js "new-secret"
  /\ password (withEmail (toLowerCase (Engine := asciiEngine) (js "Alice@Example.com")) alice)
     = password alice.
Proof.
  apply (profile_update_leaves_email_copy_stale (H := asciiEngine) request
           registered alice (js "user_1") (js "Alice@Example.com")
           (js "new-secret") None);
    try discriminate; vm_compute; first [reflexivity | discriminate].
Defined.

(** The same update, read back: the copy under the new e-mail key has the
    old password, the copy under the id has the new one, so a later password
    reset or recovery that starts from the e-mail copy starts from a stale
    record. *)
Example profile_update_desync :
  let st' := snd (updateProfile (H := asciiEngine) request (Some (js "user_1"))
                    (Some (js "Alice@Example.com")) (Some (js "new-secret"))
                    None registered) in
  option_map password (st' !! idKey (js "user_1")) = Some (js "new-secret")
  /\ option_map password (st' !! emailKey (H := asciiEngine) (js "alice@example.com"))
     = Some (js "old-secret")
  /\ st' !! emailKey (H := asciiEngine) (js "alice@example.org") = None.
Proof. repeat split; vm_compute; reflexivity. Qed.

End ServerProps.

(** ** More of the home page *)

Module HomeProps.
Import Catalog CatalogSpec Home.

(** *** Arrays *)

Lemma slice_window {A : Type} (l : list A) (start size : Z) :
  (0 <= start)%Z -> (0 <= size)%Z ->
  slice l start (start + size)
  = firstn (Z.to_nat size) (skipn (Z.to_nat start) l).
Proof.
  intros Hs Hz. unfold slice.
  assert (H1 : (start <? 0)%Z = false) by (apply Z.ltb_ge; lia).
  assert (H2 : (start + size <? 0)%Z = false) by (apply Z.ltb_ge; lia).
  rewrite H1, H2.
  set (len := Z.of_nat (List.length l)).
  destruct (Z.le_ge_cases start len) as [Hle|Hge].
  - rewrite (Z.min_l start len) by lia.
    destruct (Z.le_ge_cases (start + size) len) as [Hle'|Hge'].
    + rewrite Z.min_l by lia. f_equal. lia.
    + rewrite Z.min_r by lia.
      assert (Hlen : List.length (skipn (Z.to_nat start) l) = Z.to_nat (len - start)).
      { rewrite length_skipn. unfold len. lia. }
      rewrite <- Hlen at 1. rewrite firstn_all.
      symmetry. apply firstn_all2. rewrite Hlen. lia.
  - rewrite (Z.min_r start len) by lia.
    rewrite (Z.min_r (start + size) len) by lia.
    rewrite Z.sub_diag. change (Z.to_nat 0) with 0%nat. cbn [firstn].
    rewrite !skipn_all2 by (unfold len in *; lia).
    now rewrite !firstn_nil.
Qed.

Lemma slice_from_zero {A : Type} (l : list A) (n : Z) :
  (0 <= n)%Z -> slice l 0 n = firstn (Z.to_nat n) l.
Proof.
  intros Hn. change n with (0 + n)%Z at 1.
  now rewrite slice_window by lia.
Qed.

Lemma firstn_plus {A : Type} (a b : nat) (l : list A) :
  firstn (a + b) l = firstn a l ++ firstn b (skipn a l).
Proof.
  revert l. induction a as [|a IH]; intros l; [reflexivity|].
  destruct l as [|x l]; simpl.
  - now rewrite firstn_nil.
  - now rewrite IH.
Qed.

(** *** Pagination *)

Lemma totalPages_div (l : list Movie) (pageSize : positive) :
  totalPages l pageSize
  = ((Z.of_nat (List.length l) + Z.pos pageSize - 1) / Z.pos pageSize)%Z.
Proof.
  unfold totalPages, Qceiling, Qfloor. simpl.
  set (n := Z.of_nat (List.length l)). set (p := Z.pos pageSize).
  assert (Hp : (0 < p)%Z) by (unfold p; lia).
  pose proof (Z.div_mod (- n) p ltac:(lia)) as H1.
  pose proof (Z.mod_pos_bound (- n) p Hp) as H2.
  pose proof (Z.div_mod (n + p - 1) p ltac:(lia)) as H3.
  pose proof (Z.mod_pos_bound (n + p - 1) p Hp) as H4.
  nia.
Qed.

Lemma paginatedMovies_window (l : list Movie) (pageSize : positive) (page : Z) :
  (1 <= page)%Z ->
  paginatedMovies l pageSize page
  = firstn (Pos.to_nat pageSize)
      (skipn (Z.to_nat (page - 1) * Pos.to_nat pageSize) l).
Proof.
  intros Hp. unfold paginatedMovies. cbv zeta.
  assert (H0 : (0 <= (page - 1) * Z.pos pageSize)%Z)
    by (apply Z.mul_nonneg_nonneg; lia).
  rewrite slice_window by lia.
  rewrite Z2Nat.inj_mul by lia. now rewrite Z2Nat.inj_pos.
Qed.

Lemma pages_up_to (l : list Movie) (pageSize : positive) (k : nat) :
  List.concat (List.map (paginatedMovies l pageSize) (arrayFrom (Z.of_nat k) 1))
  = firstn (k * Pos.to_nat pageSize) l.
Proof.
  unfold arrayFrom. rewrite Nat2Z.id.
  induction k as [|k IH]; [reflexivity|].
  rewrite seq_S, map_app, map_app, concat_app, IH. simpl.
  rewrite app_nil_r, paginatedMovies_window by lia.
  replace (Z.to_nat (1 + Z.of_nat k - 1)) with k by lia.
  replace (Pos.to_nat pageSize + k * Pos.to_nat pageSize)%nat
    with (k * Pos.to_nat pageSize + Pos.to_nat pageSize)%nat by lia.
  now rewrite firstn_plus.
Qed.

(** X1. The pages 1 to [totalPages], one after the other, are the sorted
    list: every entry is on exactly one page, in order. *)
Theorem pages_cover_the_list (l : list Movie) (pageSize : positive) :
  List.concat (List.map (paginatedMovies l pageSize)
            (arrayFrom (totalPages l pageSize) 1))
  = l.
Proof.
  assert (Hnn : (0 <= totalPages l pageSize)%Z).
  { rewrite totalPages_div. apply Z.div_pos; lia. }
  rewrite <- (Z2Nat.id (totalPages l pageSize)) by exact Hnn.
  rewrite pages_up_to. apply firstn_all2.
  rewrite totalPages_div in *.
  set (n := Z.of_nat (List.length l)) in *. set (p := Z.pos pageSize) in *.
  assert (Hp : (0 < p)%Z) by (unfold p; lia).
  pose proof (Z.div_mod (n + p - 1) p ltac:(lia)) as H3.
  pose proof (Z.mod_pos_bound (n + p - 1) p Hp) as H4.
  assert (Hz : (n <= ((n + p - 1) / p) * p)%Z) by nia.
  apply Nat2Z.inj_le. rewrite Nat2Z.inj_mul, Z2Nat.id by exact Hnn.
  rewrite positive_nat_Z. exact Hz.
Qed.

(** X2. A page never holds more than [pageSize] entries; the pages 1 to
    [totalPages] are not empty, and every page behind them is. In particular
    the page that is shown is empty whenever [currentPage] is larger than
    [totalPages]. *)
Theorem page_bounds (l : list Movie) (pageSize : positive) (page : Z) :
  (1 <= page)%Z ->
  (List.length (paginatedMovies l pageSize page) <= Pos.to_nat pageSize)%nat
  /\ (page <= totalPages l pageSize -> paginatedMovies l pageSize page <> [])%Z
  /\ (totalPages l pageSize < page -> paginatedMovies l pageSize page = [])%Z.
Proof.
  intros Hp. rewrite paginatedMovies_window by exact Hp.
  rewrite totalPages_div.
  set (n := Z.of_nat (List.length l)). set (p := Z.pos pageSize).
  assert (Hpos : (0 < p)%Z) by (unfold p; lia).
  pose proof (Z.div_mod (n + p - 1) p ltac:(lia)) as H3.
  pose proof (Z.mod_pos_bound (n + p - 1) p Hpos) as H4.
  remember (Z.to_nat (page - 1) * Pos.to_nat pageSize)%nat as m eqn:Em.
  assert (Hm : Z.of_nat m = ((page - 1) * p)%Z).
  { subst m. rewrite Nat2Z.inj_mul, Z2Nat.id, positive_nat_Z by lia.
    reflexivity. }
  split; [apply firstn_le_length|]. split.
  - intros Hle Hnil.
    apply (f_equal (@List.length Movie)) in Hnil.
    rewrite length_firstn, length_skipn in Hnil. simpl in Hnil.
    assert (Hlt : ((page - 1) * p < n)%Z) by nia.
    unfold n in Hlt. lia.
  - intros Hgt. rewrite skipn_all2; [now rewrite firstn_nil|].
    assert (Hge : (n <= (page - 1) * p)%Z) by nia.
    unfold n in Hge. lia.
Qed.

Lemma page_bounds_witness :
  (1 <= 3)%Z
  /\ (List.length (paginatedMovies [entry 1 "a"; entry 2 "b"] 12 3) <= 12)%nat
  /\ (3 <= totalPages [entry 1 "a"; entry 2 "b"] 12 ->
      paginatedMovies [entry 1 "a"; entry 2 "b"] 12 3 <> [])%Z
  /\ (totalPages [entry 1 "a"; entry 2 "b"] 12 < 3 ->
      paginatedMovies [entry 1 "a"; entry 2 "b"] 12 3 = [])%Z.
Proof.
  split; [lia|].
  apply (page_bounds [entry 1 "a"; entry 2 "b"] 12 3). lia.
Defined.

End HomeProps.

Module HomeProps2.
Import Catalog CatalogSpec Home HomeProps.

(** *** Sets and descending sorts *)

Section NewSet.
Context {A : Type} (eqb : A -> A -> bool).
Hypothesis eqb_eq : forall x y, eqb x y = true <-> x = y.

Lemma addToSet_In (seen : list A) (x y : A) :
  In y (addToSet eqb seen x) <-> In y seen \/ y = x.
Proof.
  unfold addToSet. destruct (existsb (eqb x) seen) eqn:E.
  - apply existsb_exists in E as (z & Hz & Hxz). apply eqb_eq in Hxz. subst z.
    split; [tauto|]. intros [Hy| ->]; assumption.
  - rewrite in_app_iff. simpl. intuition.
Qed.

Lemma addToSet_NoDup (seen : list A) (x : A) :
  NoDup seen -> NoDup (addToSet eqb seen x).
Proof.
  intros Hnd. unfold addToSet. destruct (existsb (eqb x) seen) eqn:E; [exact Hnd|].
  apply NoDup_app; [exact Hnd|repeat constructor; simpl; tauto|].
  intros a Ha [Hax|[]]. subst a.
  assert (Hex : existsb (eqb x) seen = true).
  { apply existsb_exists. exists x. split; [exact Ha|]. now apply eqb_eq. }
  congruence.
Qed.

Lemma newSet_from (l seen : list A) :
  NoDup seen ->
  NoDup (fold_left (addToSet eqb) l seen)
  /\ forall y, In y (fold_left (addToSet eqb) l seen) <-> In y seen \/ In y l.
Proof.
  revert seen. induction l as [|x l IH]; intros seen Hnd; simpl.
  - split; [exact Hnd|]. intros y. tauto.
  - destruct (IH (addToSet eqb seen x) (addToSet_NoDup seen x Hnd)) as [H1 H2].
    split; [exact H1|]. intros y. rewrite H2, addToSet_In. intuition.
Qed.

Lemma newSet_NoDup (l : list A) : NoDup (newSet eqb l).
Proof. apply newSet_from. constructor. Qed.

Lemma newSet_In (l : list A) (y : A) : In y (newSet eqb l) <-> In y l.
Proof.
  unfold newSet. destruct (newSet_from l [] (NoDup_nil A)) as [_ H2].
  rewrite H2. simpl. tauto.
Qed.

End NewSet.

Lemma isPositive_sub_num (a b : Z) :
  isPositive (sub (num a) (num b)) = (b <? a)%Z.
Proof.
  unfold isPositive, sub, num, Qle_bool, Qminus, Qplus, Qopp, inject_Z. simpl.
  destruct (Z.leb_spec ((a * 1 + - b * 1) * 1) 0), (Z.ltb_spec b a);
    simpl; try reflexivity; lia.
Qed.

Section Descending.
Context {A : Type} (key : A -> Z).

Lemma sort_descending (l : list A) :
  StronglySorted (fun a b => (key b <= key a)%Z)
    (sort (fun a b => sub (num (key b)) (num (key a))) l).
Proof.
  apply sort_sorted with (P := fun _ => True).
  - intros x y z Hxy Hyz. lia.
  - intros x y _ _ Hp. rewrite isPositive_sub_num in Hp.
    apply Z.ltb_lt in Hp. lia.
  - intros x y _ _ Hp. rewrite isPositive_sub_num in Hp.
    apply Z.ltb_ge in Hp. lia.
  - apply Forall_forall. auto.
Qed.

End Descending.

Lemma StronglySorted_app_cross {A : Type} (R : A -> A -> Prop) (a b : list A) :
  StronglySorted R (a ++ b) ->
  StronglySorted R a /\ forall x y, In x a -> In y b -> R x y.
Proof.
  induction a as [|z a IH]; simpl; intros Hs.
  - split; [constructor|]. intros x y [].
  - inversion Hs as [|? ? Hs' Hz]; subst.
    destruct (IH Hs') as [Ha Hcross]. split.
    + constructor; [exact Ha|].
      apply Forall_forall. intros x Hx. rewrite Forall_forall in Hz.
      apply Hz. apply in_or_app. now left.
    + intros x y [<-|Hx] Hy.
      * rewrite Forall_forall in Hz. apply Hz. apply in_or_app. now right.
      * now apply Hcross.
Qed.

Lemma descending_NoDup_strict (l : list Z) :
  NoDup l -> StronglySorted (fun a b => (b <= a)%Z) l ->
  StronglySorted (fun a b => (b < a)%Z) l.
Proof.
  induction l as [|x l IH]; intros Hnd Hs; [constructor|].
  inversion Hnd as [|? ? Hx Hnd']; subst.
  inversion Hs as [|? ? Hs' Hall]; subst.
  constructor; [now apply IH|].
  rewrite Forall_forall in *. intros y Hy.
  assert (y <> x) by (intros ->; contradiction).
  specialize (Hall y Hy). lia.
Qed.

(** X3. The carousel's list holds at most twelve entries of the catalogue,
    ordered by descending [id], and every entry of the catalogue that is left
    out has an [id] no larger than any entry shown: these are the twelve most
    recently added. *)
Theorem recentMovies_most_recent (movies : list Movie) :
  (List.length (recentMovies movies) <= 12)%nat
  /\ StronglySorted (fun a b => (id b <= id a)%Z) (recentMovies movies)
  /\ (forall m, In m (recentMovies movies) -> In m movies)
  /\ (forall m, In m movies ->
        In m (recentMovies movies)
        \/ forall r, In r (recentMovies movies) -> (id m <= id r)%Z).
Proof.
  unfold recentMovies. rewrite slice_from_zero by lia.
  change (Z.to_nat 12) with 12%nat.
  set (sorted := sort (fun a b => sub (num (id b)) (num (id a))) movies).
  assert (Hsorted : StronglySorted (fun a b => (id b <= id a)%Z) sorted)
    by apply (sort_descending id).
  assert (Hperm : Permutation sorted movies) by apply sort_Permutation.
  rewrite <- (firstn_skipn 12 sorted) in Hsorted.
  apply StronglySorted_app_cross in Hsorted as [Hfirst Hcross].
  split; [apply firstn_le_length|]. split; [exact Hfirst|]. split.
  - intros m Hm. apply (Permutation_in _ Hperm).
    rewrite <- (firstn_skipn 12 sorted). apply in_or_app. now left.
  - intros m Hm. apply (Permutation_in _ (Permutation_sym Hperm)) in Hm.
    rewrite <- (firstn_skipn 12 sorted) in Hm.
    apply in_app_or in Hm as [Hm|Hm]; [now left|right].
    intros r Hr. now apply Hcross.
Qed.

(** X4. The year list of the sidebar holds exactly the years of the entries
    of the current view, each once, in strictly descending order. *)
Theorem availableYears_distinct_descending (st : HomeState) :
  StronglySorted (fun a b => (b < a)%Z) (availableYears st)
  /\ NoDup (availableYears st)
  /\ forall y, In y (availableYears st)
               <-> exists m, In m (viewMovies st) /\ year m = y.
Proof.
  unfold availableYears.
  set (years := newSet Z.eqb (List.map year (viewMovies st))).
  assert (Hnd : NoDup years) by (apply newSet_NoDup; apply Z.eqb_eq).
  assert (Hperm : Permutation (sort (fun a b => sub (num b) (num a)) years) years)
    by apply sort_Permutation.
  assert (Hnd' : NoDup (sort (fun a b => sub (num b) (num a)) years)).
  { eapply Permutation_NoDup; [apply Permutation_sym; exact Hperm|exact Hnd]. }
  split; [|split; [exact Hnd'|]].
  - apply descending_NoDup_strict; [exact Hnd'|].
    apply (sort_descending (fun y : Z => y)).
  - intros y. split.
    + intros Hy. apply (Permutation_in _ Hperm) in Hy.
      apply (proj1 (newSet_In Z.eqb Z.eqb_eq _ y)) in Hy.
      apply in_map_iff in Hy as (m & Hm & Hin). eauto.
    + intros (m & Hin & Hm).
      apply (Permutation_in _ (Permutation_sym Hperm)).
      apply (proj2 (newSet_In Z.eqb Z.eqb_eq _ y)). apply in_map_iff. eauto.
Qed.

(** X5. The tag list of the sidebar holds exactly the tags carried by some
    entry of the current view, each once. *)
Theorem allTags_distinct (st : HomeState) :
  NoDup (allTags st)
  /\ forall tag, In tag (allTags st)
                 <-> exists m ts, In m (viewMovies st) /\ tags m = Some ts /\ In tag ts.
Proof.
  unfold allTags. split; [apply newSet_NoDup; apply jsstring_eqb_eq|].
  intros tag. rewrite (newSet_In jsstring_eqb jsstring_eqb_eq).
  rewrite in_flat_map. split.
  - intros (m & Hm & Hin). destruct (tags m) as [ts|] eqn:E; [|contradiction].
    eauto.
  - intros (m & ts & Hm & E & Hin). exists m. rewrite E. auto.
Qed.

End HomeProps2.

Module HomeProps3.
Import Catalog CatalogSpec Home HomeProps HomeProps2.

(** *** New ids *)

Lemma fold_max_ge (l : list Z) (a : Z) :
  (a <= fold_left Z.max l a)%Z
  /\ forall x, In x l -> (x <= fold_left Z.max l a)%Z.
Proof.
  revert a. induction l as [|y l IH]; intros a; simpl.
  - split; [lia|]. intros x [].
  - destruct (IH (Z.max a y)) as [H1 H2]. split; [lia|].
    intros x [<-|Hx]; [lia|auto].
Qed.

Lemma maxId_ge (movies : list Movie) (m : Movie) :
  In m movies -> (id m <= maxId movies)%Z.
Proof.
  intros Hm. unfold maxId, mathMax.
  apply (in_map id) in Hm.
  destruct (List.map id movies) as [|first rest]; [contradiction|].
  destruct (fold_max_ge rest first) as [H1 H2].
  destruct Hm as [<-|Hm]; auto.
Qed.

(** Adding one is exact up to [2 ^ 53] and no further. *)
Lemma plusOne_safe (n : Z) : isSafeInteger n = true -> plusOne n = (n + 1)%Z.
Proof.
  unfold isSafeInteger, MAX_SAFE_INTEGER, plusOne, toDouble.
  change (2 ^ 53)%Z with 9007199254740992%Z.
  intros Hn. apply Z.leb_le in Hn.
  destruct (Z.ltb_spec (Z.abs (n + 1)) 9007199254740992) as [_|Hge];
    [reflexivity|].
  assert (Hn1 : (n + 1 = 9007199254740992)%Z) by lia.
  rewrite Hn1. reflexivity.
Qed.

Example plusOne_saturates :
  plusOne (2 ^ 53) = (2 ^ 53)%Z /\ plusOne (2 ^ 53 + 2) = (2 ^ 53 + 4)%Z
  /\ plusOne (- 2 ^ 53 - 4) = (- 2 ^ 53 - 4)%Z.
Proof. repeat split; reflexivity. Qed.

Lemma newId_above (existing : list Movie) (m : Movie) :
  isSafeInteger (maxId existing) = true ->
  In m existing -> (id m < newId existing)%Z.
Proof.
  intros Hsafe Hm. pose proof (maxId_ge existing m Hm) as Hle.
  apply plusOne_safe in Hsafe.
  unfold newId, maxId in *.
  destruct (List.map id existing) as [|first rest] eqn:E; [|lia].
  apply (in_map id) in Hm. rewrite E in Hm. contradiction.
Qed.

(** X6. While the largest id of the main list is a safe integer (below
    [2 ^ 53] in absolute value), marking an entry as watched puts it at the
    head of the main list under the largest id plus one, an id that no entry
    of the main list has, so ids that were unique in the main list stay
    unique; and it removes from the to-watch list exactly the entries with
    the id of the marked one. *)
Theorem handleMarkAsWatched_fresh_id (movie : Movie) (st : HomeState) :
  isSafeInteger (maxId (movies st)) = true ->
  let st' := handleMarkAsWatched movie st in
  movies st' = withId (maxId (movies st) + 1) movie :: movies st
  /\ ~ In (maxId (movies st) + 1)%Z (List.map id (movies st))
  /\ (NoDup (List.map id (movies st)) -> NoDup (List.map id (movies st')))
  /\ (forall m, In m (toWatchMovies st')
                <-> In m (toWatchMovies st) /\ id m <> id movie).
Proof.
  intros Hsafe st'. subst st'. unfold handleMarkAsWatched. simpl.
  rewrite (plusOne_safe _ Hsafe).
  assert (Hfresh : ~ In (maxId (movies st) + 1)%Z (List.map id (movies st))).
  { intros Hin. apply in_map_iff in Hin as (m & Hid & Hm).
    pose proof (maxId_ge (movies st) m Hm). lia. }
  split; [reflexivity|]. split; [exact Hfresh|]. split.
  - intros Hnd. constructor; assumption.
  - intros m. rewrite filter_In, negb_true_iff, Z.eqb_neq. tauto.
Qed.

Lemma handleMarkAsWatched_fresh_id_witness :
  let st := initialState [entry 1 "a"; entry 4 "b"] in
  let st' := handleMarkAsWatched (entry 2 "c") st in
  isSafeInteger (maxId (movies st)) = true
  /\ movies st' = withId (maxId (movies st) + 1) (entry 2 "c") :: movies st
  /\ ~ In (maxId (movies st) + 1)%Z (List.map id (movies st))
  /\ (NoDup (List.map id (movies st)) -> NoDup (List.map id (movies st')))
  /\ (forall m, In m (toWatchMovies st')
                <-> In m (toWatchMovies st) /\ id m <> id (entry 2 "c")).
Proof.
  intros st st'. split; [reflexivity|].
  apply (handleMarkAsWatched_fresh_id (entry 2 "c") st). reflexivity.
Defined.

(** From [2 ^ 53] on the sum is no longer exact: the entry marked as watched
    gets the id that the head of the list already has. *)
Example handleMarkAsWatched_repeats_id :
  List.map id (movies (handleMarkAsWatched (entry 2 "c")
                         (initialState [entry (2 ^ 53) "a"])))
  = [(2 ^ 53)%Z; (2 ^ 53)%Z].
Proof. reflexivity. Qed.

(** X7. While the largest id in use is a safe integer, the id that the add
    dialog gives a new entry is larger than every id in use, and adding the
    entry keeps the ids of the two lists together free of duplicates. *)
Theorem add_dialog_keeps_ids_unique (newMovie : Movie) (st : HomeState) :
  isSafeInteger (maxId (movies st ++ toWatchMovies st)) = true ->
  id newMovie = newId (movies st ++ toWatchMovies st) ->
  NoDup (List.map id (movies st ++ toWatchMovies st)) ->
  let st' := handleAddMovie newMovie st in
  (forall m, In m (movies st ++ toWatchMovies st) -> (id m < id newMovie)%Z)
  /\ NoDup (List.map id (movies st' ++ toWatchMovies st')).
Proof.
  intros Hsafe Hid Hnd st'. subst st'.
  assert (Hab : forall m, In m (movies st ++ toWatchMovies st) ->
                          (id m < id newMovie)%Z).
  { intros m Hm. rewrite Hid. now apply newId_above. }
  split; [exact Hab|].
  assert (Hnew : NoDup (List.map id (newMovie :: movies st ++ toWatchMovies st))).
  { simpl. constructor; [|exact Hnd].
    intros Hin. apply in_map_iff in Hin as (m & Hm & Hin).
    specialize (Hab m Hin). lia. }
  unfold handleAddMovie. destruct (currentView st); simpl; [exact Hnew|].
  eapply Permutation_NoDup; [|exact Hnew].
  apply Permutation_map. apply Permutation_middle.
Qed.

Lemma add_dialog_keeps_ids_unique_witness :
  let st := initialState [entry 1 "a"; entry 4 "b"] in
  let m := entry 5 "c" in
  isSafeInteger (maxId (movies st ++ toWatchMovies st)) = true
  /\ id m = newId (movies st ++ toWatchMovies st)
  /\ NoDup (List.map id (movies st ++ toWatchMovies st))
  /\ (forall x, In x (movies st ++ toWatchMovies st) -> (id x < id m)%Z)
  /\ NoDup (List.map id (movies (handleAddMovie m st)
                         ++ toWatchMovies (handleAddMovie m st))).
Proof.
  intros st m.
  assert (Hnd : NoDup (List.map id (movies st ++ toWatchMovies st))).
  { simpl. repeat constructor; simpl; intuition discriminate. }
  split; [reflexivity|]. split; [reflexivity|]. split; [exact Hnd|].
  apply (add_dialog_keeps_ids_unique m st); [reflexivity|reflexivity|exact Hnd].
Defined.

(** At [2 ^ 53] the dialog gives the id that is already in use. *)
Example newId_repeats_id : newId [entry (2 ^ 53) "a"] = (2 ^ 53)%Z.
Proof. reflexivity. Qed.

(** *** The sidebar buttons *)

Lemma existsb_eqb_In (g : jsstring) (l : list jsstring) :
  existsb (jsstring_eqb g) l = true <-> In g l.
Proof.
  rewrite existsb_exists. split.
  - intros (x & Hx & Heq). apply jsstring_eqb_eq in Heq. now subst.
  - intros Hg. exists g. split; [exact Hg|]. now apply jsstring_eqb_eq.
Qed.

Lemma without_In (g h : jsstring) (l : list jsstring) :
  In h (without g l) <-> In h l /\ h <> g.
Proof.
  unfold without. rewrite filter_In, negb_true_iff.
  split; intros [H1 H2]; split; auto.
  - intros ->. assert (jsstring_eqb g g = true) by now apply jsstring_eqb_eq.
    congruence.
  - destruct (jsstring_eqb h g) eqn:E; [|reflexivity].
    apply jsstring_eqb_eq in E. contradiction.
Qed.

Lemma without_absent (g : jsstring) (l : list jsstring) :
  ~ In g l -> without g l = l.
Proof.
  intros Hg. unfold without. induction l as [|x l IH]; [reflexivity|].
  simpl. destruct (jsstring_eqb x g) eqn:E.
  - apply jsstring_eqb_eq in E. subst. exfalso. apply Hg. now left.
  - simpl. f_equal. apply IH. intros Hin. apply Hg. now right.
Qed.

Lemma clickGenre_selected (g : jsstring) (st : HomeState) :
  selectedGenres (clickGenre g st)
  = if existsb (jsstring_eqb g) (selectedGenres st)
    then without g (selectedGenres st)
    else selectedGenres st ++ [g].
Proof.
  unfold clickGenre.
  now destruct (existsb (jsstring_eqb g) (selectedGenres st)).
Qed.

(** X8. A click on a genre button toggles that genre and no other, leads
    to page 1, and never puts a genre into the selection twice; two clicks on
    a genre that was not selected give the selection back. *)
Theorem clickGenre_toggles (g : jsstring) (st : HomeState) :
  NoDup (selectedGenres st) ->
  let st' := clickGenre g st in
  NoDup (selectedGenres st')
  /\ (In g (selectedGenres st') <-> ~ In g (selectedGenres st))
  /\ (forall h, h <> g -> (In h (selectedGenres st') <-> In h (selectedGenres st)))
  /\ currentPage st' = 1%Z
  /\ (~ In g (selectedGenres st) ->
      selectedGenres (clickGenre g st') = selectedGenres st).
Proof.
  intros Hnd st'. subst st'.
  rewrite (clickGenre_selected g (clickGenre g st)), !clickGenre_selected.
  destruct (existsb (jsstring_eqb g) (selectedGenres st)) eqn:E.
  - apply existsb_eqb_In in E. repeat split.
    + unfold without. now apply NoDup_filter.
    + intros Hin. apply without_In in Hin. tauto.
    + intros Hno. contradiction.
    + intros Hh. apply without_In in Hh. tauto.
    + intros Hh. apply without_In. tauto.
    + intros Hno. contradiction.
  - assert (Hno : ~ In g (selectedGenres st)).
    { intros Hin. apply existsb_eqb_In in Hin. congruence. }
    repeat split.
    + apply NoDup_app; [exact Hnd|repeat constructor; simpl; tauto|].
      intros a Ha [Hag|[]]. subst a. contradiction.
    + intros _. exact Hno.
    + intros _. apply in_or_app. right. now left.
    + intros Hh. apply in_app_or in Hh as [Hh|[Hh|[]]]; [exact Hh|].
      subst. contradiction.
    + intros Hh. apply in_or_app. now left.
    + intros _.
      assert (Hin : existsb (jsstring_eqb g) (selectedGenres st ++ [g]) = true).
      { apply existsb_eqb_In. apply in_or_app. right. now left. }
      rewrite Hin. unfold without. rewrite filter_app. simpl.
      assert (Hgg : jsstring_eqb g g = true) by now apply jsstring_eqb_eq.
      rewrite Hgg. simpl. rewrite app_nil_r.
      now apply without_absent.
Qed.

Lemma clickGenre_toggles_witness :
  let st := setSelectedGenres [js "Drama"] (initialState []) in
  let st' := clickGenre (js "Comedy") st in
  NoDup (selectedGenres st)
  /\ NoDup (selectedGenres st')
  /\ (In (js "Comedy") (selectedGenres st') <-> ~ In (js "Comedy") (selectedGenres st))
  /\ (forall h, h <> js "Comedy" ->
        (In h (selectedGenres st') <-> In h (selectedGenres st)))
  /\ currentPage st' = 1%Z
  /\ (~ In (js "Comedy") (selectedGenres st) ->
      selectedGenres (clickGenre (js "Comedy") st') = selectedGenres st).
Proof.
  intros st st'.
  assert (Hnd : NoDup (selectedGenres st)).
  { simpl. repeat constructor. simpl. tauto. }
  split; [exact Hnd|].
  apply (clickGenre_toggles (js "Comedy") st Hnd).
Defined.

End HomeProps3.

Module HomeProps4.
Import Catalog CatalogSpec Home HomeProps HomeProps2 HomeProps3.

(** *** Reset *)

Lemma filterM_pure {A : Type} (f : A -> bool) (l : list A) :
  filterM (fun x => Normal (f x)) l = Normal (List.filter f l).
Proof.
  induction l as [|x l IH]; [reflexivity|].
  simpl. rewrite IH. now destruct (f x).
Qed.

Lemma filterM_ext {A : Type} (f g : A -> completion bool) (l : list A) :
  (forall x, f x = g x) -> filterM f l = filterM g l.
Proof.
  intros Hfg. induction l as [|x l IH]; [reflexivity|].
  simpl. now rewrite Hfg, IH.
Qed.

(** X9. After the reset button the filter stage returns, without throwing,
    the entries of the current view whose effective rating lies between 0 and
    10, in their order, and nothing else: all other predicates are off, the
    rating predicate never is. *)
Theorem reset_shows_rated_entries `{Engine} (st : HomeState) :
  filteredMovies (dispatch ResetFilters st)
  = Normal (List.filter
              (fun m => geq (movieRating m) (Some 0%Q)
                        && leq (movieRating m) (Some (inject_Z 10)))
              (viewMovies st)).
Proof.
  unfold filteredMovies.
  change (viewMovies (dispatch ResetFilters st)) with (viewMovies st).
  rewrite <- filterM_pure. apply filterM_ext. intros m.
  unfold passes, searchMatch. simpl. now rewrite !andb_true_r.
Qed.

(** *** The add dialog *)

Lemma includes_unfold (needle s : jsstring) :
  includes needle s
  = startsWith needle s
    || match s with
       | [] => false
       | _ :: rest => includes needle rest
       end.
Proof. destruct s; reflexivity. Qed.

Lemma startsWith_app (n rest : jsstring) : startsWith n (n ++ rest) = true.
Proof.
  induction n as [|c n IH]; [reflexivity|].
  simpl. now rewrite N.eqb_refl, IH.
Qed.

Lemma includes_app_needle (needle before after : jsstring) :
  includes needle (before ++ needle ++ after) = true.
Proof.
  induction before as [|c before IH].
  - simpl app. now rewrite includes_unfold, startsWith_app.
  - simpl. rewrite IH. apply orb_true_r.
Qed.

Lemma takeDigits_app (digits rest : jsstring) :
  forallb isDigit digits = true ->
  match rest with c :: _ => isDigit c | [] => false end = false ->
  takeDigits (digits ++ rest) = digits /\ dropDigits (digits ++ rest) = rest.
Proof.
  intros Hd Hr. induction digits as [|d digits IH]; simpl.
  - destruct rest as [|c rest]; [auto|]. simpl. now rewrite Hr.
  - simpl in Hd. apply andb_true_iff in Hd as [Hd Hds]. rewrite Hd.
    destruct (IH Hds) as [-> ->]. auto.
Qed.

Lemma isAsciib_app (a b : jsstring) : isAsciib (a ++ b) = isAsciib a && isAsciib b.
Proof. apply forallb_app. Qed.

Lemma digits_ascii (digits : jsstring) :
  forallb isDigit digits = true -> isAsciib digits = true.
Proof.
  unfold isAsciib. rewrite !forallb_forall. intros Hd c Hc.
  specialize (Hd c Hc). unfold isDigit, between in Hd.
  apply andb_true_iff in Hd as [_ Hd]. apply N.leb_le in Hd.
  apply N.ltb_lt. lia.
Qed.

Lemma matchSeason_unfold (c : codeunit) (rest : jsstring) :
  matchSeason (c :: rest)
  = if isDigit c && spacesThenSeason (dropDigits (c :: rest))
    then Some (takeDigits (c :: rest))
    else matchSeason rest.
Proof. reflexivity. Qed.

Lemma matchDigits_unfold (c : codeunit) (rest : jsstring) :
  matchDigits (c :: rest)
  = if isDigit c then Some (takeDigits (c :: rest)) else matchDigits rest.
Proof. reflexivity. Qed.

Lemma parseRuntime_cons (c : codeunit) (rest : jsstring) :
  parseRuntime (Some (c :: rest))
  = match matchDigits (c :: rest) with
    | Some digits => parseInt digits
    | None => 0%N
    end.
Proof. reflexivity. Qed.

Section SeriesRuntime.
Context `{Engine}.

(** X10. The runtime text that the add dialog writes for a series with a
    season count of decimal digits is never in a minutes bucket, is in the
    [multiSeason] bucket exactly when the count is larger than 1, and is in
    the [oneSeason] bucket when the count is "1". *)
Theorem seriesRuntime_buckets (st : HomeState) (m : Movie) (totalSeasons : jsstring) :
  totalSeasons <> [] ->
  forallb isDigit totalSeasons = true ->
  runtime m = Some (seriesRuntime totalSeasons) ->
  match runtimeFilter st with
  | RuntimeFilter.all => runtimeMatch st m = true
  | RuntimeFilter.short | RuntimeFilter.medium | RuntimeFilter.long =>
      runtimeMatch st m = false
  | RuntimeFilter.multiSeason =>
      runtimeMatch st m = (1 <? parseInt totalSeasons)%N
  | RuntimeFilter.oneSeason =>
      totalSeasons = js "1" -> runtimeMatch st m = true
  end.
Proof.
  intros Hne Hd Hr.
  set (suffix := if jsstring_eqb totalSeasons (js "1") then [] else js "s").
  assert (Htext : seriesRuntime totalSeasons = totalSeasons ++ js " Season" ++ suffix)
    by reflexivity.
  assert (Hascii : isAsciib (seriesRuntime totalSeasons) = true).
  { rewrite Htext, !isAsciib_app, (digits_ascii totalSeasons Hd).
    subst suffix. now destruct (jsstring_eqb totalSeasons (js "1")). }
  assert (Hhead : exists d ds, totalSeasons = d :: ds /\ isDigit d = true).
  { destruct totalSeasons as [|d ds]; [congruence|]. exists d, ds.
    simpl in Hd. apply andb_true_iff in Hd as [Hd0 _]. auto. }
  destruct Hhead as (d & ds & Hds & Hdd).
  assert (Hcons : seriesRuntime totalSeasons
                  = d :: (ds ++ js " Season" ++ suffix)).
  { rewrite Htext, Hds. reflexivity. }
  assert (Hseason : isSeason m = true).
  { unfold isSeason. rewrite Hr, Hcons. rewrite <- Hcons.
    rewrite (toLowerCase_ascii _ (isAsciib_sound _ Hascii)), Htext.
    rewrite !map_app.
    change (List.map asciiLower (js " Season")) with ([space] ++ js "season").
    rewrite <- app_assoc, (app_assoc _ [space]).
    apply includes_app_needle. }
  assert (Hrest : match js " Season" ++ suffix with
                  | c :: _ => isDigit c
                  | [] => false
                  end = false) by reflexivity.
  destruct (takeDigits_app totalSeasons (js " Season" ++ suffix) Hd Hrest)
    as [Htake Hdrop].
  assert (Hspaces : spacesThenSeason (js " Season" ++ suffix) = true).
  { subst suffix. now destruct (jsstring_eqb totalSeasons (js "1")). }
  assert (Hmatch : matchSeason (seriesRuntime totalSeasons) = Some totalSeasons).
  { rewrite Hcons, matchSeason_unfold, Hdd, <- Hcons, Htext, Hdrop, Htake.
    now rewrite Hspaces. }
  assert (Hparse : parseRuntime (runtime m) = parseInt totalSeasons).
  { rewrite Hr, Hcons, parseRuntime_cons, matchDigits_unfold, Hdd.
    now rewrite <- Hcons, Htext, Htake. }
  unfold runtimeMatch. rewrite Hparse, Hseason, Hr, Hmatch.
  destruct (runtimeFilter st); try reflexivity.
  intros ->. reflexivity.
Qed.

(** X11. When the dialog's duplicate check finds nothing and the titles of
    the current view are distinct, lower case: with a fetched title that is
    not empty they are still distinct after the entry is added; with a
    missing or empty fetched title the entry is called "Unknown Title", and
    the titles stay distinct exactly when no entry of the view has that
    title already. *)
Theorem duplicate_check_keeps_titles_distinct (st : HomeState)
    (fetchedTitle : option jsstring) (newMovie : Movie) :
  duplicateMovie (viewMovies st) fetchedTitle = None ->
  title newMovie = dialogTitle fetchedTitle ->
  NoDup (List.map (fun m => toLowerCase (title m)) (viewMovies st)) ->
  let after := List.map (fun m => toLowerCase (title m))
                 (viewMovies (handleAddMovie newMovie st)) in
  match fetchedTitle with
  | Some (_ :: _) => NoDup after
  | _ =>
      NoDup after
      <-> ~ In (toLowerCase (js "Unknown Title"))
               (List.map (fun m => toLowerCase (title m)) (viewMovies st))
  end.
Proof.
  intros Hdup Ht Hnd after.
  assert (Hview : viewMovies (handleAddMovie newMovie st) = newMovie :: viewMovies st).
  { unfold handleAddMovie, viewMovies.
    destruct (currentView st) eqn:E; simpl; now rewrite E. }
  assert (Hafter : NoDup after
                   <-> ~ In (toLowerCase (dialogTitle fetchedTitle))
                            (List.map (fun m => toLowerCase (title m)) (viewMovies st))).
  { subst after. rewrite Hview. simpl. rewrite Ht. split.
    - intros Hcons. now inversion Hcons.
    - intros Hnew. now constructor. }
  destruct fetchedTitle as [[|c t]|]; [exact Hafter| |exact Hafter].
  apply Hafter. simpl dialogTitle.
  intros Hin. apply in_map_iff in Hin as (x & Hx & Hin).
  unfold duplicateMovie in Hdup.
  apply (find_none _ _ Hdup) in Hin.
  rewrite Hx in Hin.
  assert (jsstring_eqb (toLowerCase (c :: t)) (toLowerCase (c :: t)) = true)
    by now apply jsstring_eqb_eq.
  congruence.
Qed.

End SeriesRuntime.


Lemma seriesRuntime_buckets_witness :
  let st := setRuntimeFilter RuntimeFilter.multiSeason (initialState []) in
  let m := withRuntime "3 Seasons" (entry 1 "Dark") in
  js "3" <> []
  /\ forallb isDigit (js "3") = true
  /\ runtime m = Some (seriesRuntime (js "3"))
  /\ runtimeMatch (H := asciiEngine) st m = (1 <? parseInt (js "3"))%N.
Proof.
  intros st m. split; [discriminate|]. split; [reflexivity|].
  split; [reflexivity|].
  apply (seriesRuntime_buckets (H := asciiEngine) st m (js "3"));
    [discriminate|reflexivity|reflexivity].
Defined.

Lemma duplicate_check_keeps_titles_distinct_witness :
  let st := initialState [entry 1 "Se7en"] in
  let m := entry 2 "The Room" in
  duplicateMovie (H := asciiEngine) (viewMovies st) (Some (js "The Room")) = None
  /\ title m = dialogTitle (Some (js "The Room"))
  /\ NoDup (List.map (fun x => toLowerCase (Engine := asciiEngine) (title x))
              (viewMovies st))
  /\ NoDup (List.map (fun x => toLowerCase (Engine := asciiEngine) (title x))
              (viewMovies (handleAddMovie m st))).
Proof.
  intros st m.
  assert (Hnd : NoDup (List.map (fun x => toLowerCase (Engine := asciiEngine) (title x))
                         (viewMovies st))).
  { simpl. repeat constructor. simpl. tauto. }
  split; [reflexivity|]. split; [reflexivity|]. split; [exact Hnd|].
  apply (duplicate_check_keeps_titles_distinct (H := asciiEngine) st
           (Some (js "The Room")) m); [reflexivity|reflexivity|exact Hnd].
Defined.

(** Two fetches without a title: the check passes both times and the view
    holds two entries called "Unknown Title". *)
Example second_unknown_title_is_added :
  let first := entry 1 "Unknown Title" in
  let second := entry 2 "Unknown Title" in
  let st := handleAddMovie first (initialState []) in
  title first = dialogTitle None
  /\ title second = dialogTitle None
  /\ duplicateMovie (H := asciiEngine) (viewMovies st) None = None
  /\ List.map title (viewMovies (handleAddMovie second st))
     = [js "Unknown Title"; js "Unknown Title"].
Proof. repeat split; reflexivity. Qed.


End HomeProps4.

(** ** The page buttons *)

Module PaginationProps.
Import PaginationControls.

Lemma getPageRange_explicit (currentPage totalPages : Z) :
  (1 <= currentPage <= totalPages)%Z ->
  getPageRange currentPage totalPages
  = arrayFrom (Z.min totalPages 7) (windowStart currentPage totalPages).
Proof.
  intros Hc. unfold getPageRange, windowStart.
  destruct (Z.leb_spec totalPages 7) as [Hle|Hgt].
  - now rewrite Z.min_l by lia.
  - cbv zeta. rewrite (Z.min_r totalPages 7) by lia.
    repeat match goal with
           | |- context [(?a <? ?b)%Z] => destruct (Z.ltb_spec a b)
           | |- context [(?a =? ?b)%Z] => destruct (Z.eqb_spec a b)
           end;
      cbn [andb]; first [ exfalso; lia | f_equal; lia ].
Qed.

(** X13. For a current page between 1 and [totalPages], the numbered
    buttons show consecutive pages: all pages when there are at most seven,
    otherwise seven of them, none below 1 or above [totalPages], the current
    page among them. *)
Theorem getPageRange_window (currentPage totalPages : Z) :
  (1 <= currentPage <= totalPages)%Z ->
  exists start,
    getPageRange currentPage totalPages = arrayFrom (Z.min totalPages 7) start
    /\ (1 <= start)%Z
    /\ (start + Z.min totalPages 7 - 1 <= totalPages)%Z
    /\ (start <= currentPage <= start + Z.min totalPages 7 - 1)%Z.
Proof.
  intros Hc. exists (windowStart currentPage totalPages).
  split; [now apply getPageRange_explicit|].
  unfold windowStart. destruct (Z.leb_spec totalPages 7); lia.
Qed.

(** X14. From a current page between 1 and [totalPages], every button
    (first, previous, a numbered one, next, last) leads to a page between 1
    and [totalPages]. *)
Theorem buttons_stay_in_range (currentPage totalPages : Z) :
  (1 <= currentPage <= totalPages)%Z ->
  (1 <= firstPage <= totalPages)%Z
  /\ (1 <= previousPage currentPage <= totalPages)%Z
  /\ (1 <= nextPage currentPage totalPages <= totalPages)%Z
  /\ (1 <= lastPage totalPages <= totalPages)%Z
  /\ Forall (fun page => 1 <= page <= totalPages)%Z
       (getPageRange currentPage totalPages).
Proof.
  intros Hc. unfold firstPage, previousPage, nextPage, lastPage.
  repeat (split; [lia|]).
  rewrite (getPageRange_explicit currentPage totalPages Hc).
  apply Forall_forall. intros page Hp. unfold arrayFrom in Hp.
  apply in_map_iff in Hp as (i & <- & Hi). apply in_seq in Hi.
  unfold windowStart. destruct (Z.leb_spec totalPages 7); lia.
Qed.

Lemma getPageRange_window_witness :
  (1 <= 9 <= 20)%Z
  /\ exists start,
       getPageRange 9 20 = arrayFrom (Z.min 20 7) start
       /\ (1 <= start)%Z
       /\ (start + Z.min 20 7 - 1 <= 20)%Z
       /\ (start <= 9 <= start + Z.min 20 7 - 1)%Z.
Proof. split; [lia|]. apply (getPageRange_window 9 20). lia. Defined.

Lemma buttons_stay_in_range_witness :
  (1 <= 9 <= 20)%Z
  /\ (1 <= firstPage <= 20)%Z
  /\ (1 <= previousPage 9 <= 20)%Z
  /\ (1 <= nextPage 9 20 <= 20)%Z
  /\ (1 <= lastPage 20 <= 20)%Z
  /\ Forall (fun page => 1 <= page <= 20)%Z (getPageRange 9 20).
Proof. split; [lia|]. apply (buttons_stay_in_range 9 20). lia. Defined.

End PaginationProps.

(** ** More of the slug codec *)

Module SlugProps.
Import Catalog CatalogSpec CatalogProps.

Lemma replaceRunsFrom_none (p : codeunit -> bool) (r : codeunit) (b : bool)
    (s : jsstring) :
  Forall (fun c => p c = false) s -> replaceRunsFrom p r b s = s.
Proof.
  revert b. induction s as [|c s IH]; intros b Hs; [reflexivity|].
  inversion Hs as [|? ? Hc Hs']; subst. simpl. rewrite Hc. f_equal. auto.
Qed.

Lemma collapse_single_hyphens (b : bool) (s : jsstring) :
  singleHyphens s = true ->
  (b = true -> headIsHyphen s = false) ->
  replaceRunsFrom isHyphen hyphen b s = s.
Proof.
  revert b. induction s as [|c s IH]; intros b Hs Hb; [reflexivity|].
  simpl. destruct (isHyphen c) eqn:Hc.
  - destruct b; [specialize (Hb eq_refl); simpl in Hb; congruence|].
    assert (Ec : c = hyphen) by now apply N.eqb_eq.
    subst c. f_equal. apply IH.
    + destruct s as [|d s]; [reflexivity|].
      rewrite singleHyphens_cons in Hs. now apply andb_true_iff in Hs as [_ Hs].
    + intros _. destruct s as [|d s]; [reflexivity|].
      rewrite singleHyphens_cons, Hc in Hs. simpl in *.
      apply andb_true_iff in Hs as [Hs _]. now apply negb_true_iff in Hs.
  - f_equal. apply IH; [|discriminate].
    destruct s as [|d s]; [reflexivity|].
    rewrite singleHyphens_cons in Hs. now apply andb_true_iff in Hs as [_ Hs].
Qed.

Lemma lowerWord_or_hyphen_facts (c : codeunit) :
  isLowerWord c = true \/ c = hyphen ->
  (c < 128)%N /\ asciiLower c = c
  /\ (isWordChar c || isWhiteSpace c || isHyphen c) = true
  /\ isWhiteSpace c = false.
Proof.
  intros Hc.
  assert (Hws : isWhiteSpace c = false) by now apply lowerWord_or_hyphen_not_space.
  destruct Hc as [Hc| ->]; [|repeat split; reflexivity].
  pose proof (isLowerWord_range c Hc) as Hr.
  assert (Hup : isUpperAscii c = false).
  { unfold isLowerWord, isDigit, isUpperAscii, between in *.
    rewrite !orb_true_iff, !andb_true_iff, !N.leb_le, N.eqb_eq in Hc.
    apply andb_false_iff. rewrite !N.leb_gt. lia. }
  repeat split; [lia| |now unfold isWordChar; rewrite Hc|exact Hws].
  unfold asciiLower. now rewrite Hup.
Qed.

Section Codec.
Context `{Engine}.

(** X15. Encoding is idempotent: the slug of a slug is the slug itself,
    for every title. *)
Theorem createSlug_idempotent (title : jsstring) :
  createSlug (createSlug title) = createSlug title.
Proof.
  set (s := createSlug title).
  assert (Hchars : Forall (fun c => isLowerWord c = true \/ c = hyphen) s).
  { apply Forall_forall. intros c Hc. now apply createSlug_chars in Hc. }
  assert (Hsingle : singleHyphens s = true) by apply createSlug_single_hyphens.
  assert (Hfacts : Forall (fun c => (c < 128)%N /\ asciiLower c = c
                     /\ (isWordChar c || isWhiteSpace c || isHyphen c) = true
                     /\ isWhiteSpace c = false) s).
  { eapply Forall_impl; [|exact Hchars]. apply lowerWord_or_hyphen_facts. }
  rewrite createSlug_trim_is_noop.
  assert (Hlower : toLowerCase s = s).
  { rewrite toLowerCase_ascii.
    - clear - Hfacts. induction Hfacts as [|c l (_ & Hc & _) _ IH]; [reflexivity|].
      simpl. now rewrite Hc, IH.
    - eapply Forall_impl; [|exact Hfacts]. intros c Hc. apply Hc. }
  rewrite Hlower.
  assert (Hkeep : removeUnless (fun c => isWordChar c || isWhiteSpace c || isHyphen c) s = s).
  { unfold removeUnless. clear - Hfacts.
    induction Hfacts as [|c l (_ & _ & Hc & _) _ IH]; [reflexivity|].
    simpl. now rewrite Hc, IH. }
  rewrite Hkeep. unfold replaceRuns.
  rewrite (replaceRunsFrom_none isWhiteSpace hyphen false s).
  - apply collapse_single_hyphens; [exact Hsingle|discriminate].
  - eapply Forall_impl; [|exact Hfacts]. intros c Hc. apply Hc.
Qed.

(** X16. The link of a card resolves: for an entry of the list whose
    title has a slug that is not empty (the page loads nothing for an empty
    one), looking up the slug finds an entry whose title matches the slug,
    and that entry is the one clicked or one that stands before it in the
    list; the page does not show "Movie not found". *)
Theorem card_link_resolves (m : Movie) (allMoviesData : list Movie) :
  In m allMoviesData ->
  createSlug (title m) <> [] ->
  exists before found after,
    allMoviesData = before ++ found :: after
    /\ foundMovie (createSlug (title m)) allMoviesData = Some found
    /\ render (foundMovie (createSlug (title m)) allMoviesData) = MovieDetail found
    /\ Matches (createSlug (title m)) found
    /\ (found = m \/ In m after).
Proof.
  intros Hm _. unfold foundMovie.
  pose proof (find_first (matchesSlug (createSlug (title m))) allMoviesData) as Hfind.
  assert (Hself : matchesSlug (createSlug (title m)) m = true).
  { apply matchesSlug_true. now left. }
  destruct (List.find (matchesSlug (createSlug (title m))) allMoviesData)
    as [found|] eqn:E.
  - destruct Hfind as (before & after & Hl & Hf & Hb).
    exists before, found, after. repeat split; auto.
    + now apply matchesSlug_true.
    + rewrite Hl in Hm. apply in_app_or in Hm as [Hm|[Hm|Hm]]; auto.
      rewrite Forall_forall in Hb. specialize (Hb m Hm). congruence.
  - rewrite Forall_forall in Hfind. specialize (Hfind m Hm). congruence.
Qed.

End Codec.

Lemma card_link_resolves_witness :
  let a := entry 1 "Movie: Part 2" in
  let b := entry 2 "Movie Part 2" in
  In b [a; b]
  /\ createSlug (H := asciiEngine) (title b) <> []
  /\ exists before found after,
       [a; b] = before ++ found :: after
       /\ foundMovie (H := asciiEngine) (createSlug (H := asciiEngine) (title b)) [a; b]
          = Some found
       /\ render (foundMovie (H := asciiEngine)
                    (createSlug (H := asciiEngine) (title b)) [a; b])
          = MovieDetail found
       /\ Matches (H := asciiEngine) (createSlug (H := asciiEngine) (title b)) found
       /\ (found = b \/ In b after).
Proof.
  intros a b.
  assert (Hin : In b [a; b]) by (right; now left).
  assert (Hslug : createSlug (H := asciiEngine) (title b) <> []).
  { vm_compute. discriminate. }
  split; [exact Hin|]. split; [exact Hslug|].
  apply (card_link_resolves (H := asciiEngine) b [a; b] Hin Hslug).
Defined.

End SlugProps.

Module SlugProps2.
Import Catalog CatalogSpec CatalogProps SlugProps.

Lemma singleSpaces_cons (a b : codeunit) (rest : jsstring) :
  singleSpaces (a :: b :: rest)
  = negb ((a =? space)%N && (b =? space)%N) && singleSpaces (b :: rest).
Proof. reflexivity. Qed.

Lemma singleSpaces_tail (a : codeunit) (rest : jsstring) :
  singleSpaces (a :: rest) = true -> singleSpaces rest = true.
Proof.
  destruct rest as [|b rest]; [reflexivity|].
  rewrite singleSpaces_cons. intros Hs. now apply andb_true_iff in Hs as [_ Hs].
Qed.

Lemma isPlainUnit_facts (c : codeunit) :
  isPlainUnit c = true ->
  (c < 128)%N /\ asciiLower c = c
  /\ (isWordChar c || isWhiteSpace c || isHyphen c) = true
  /\ isWhiteSpace c = (c =? space)%N
  /\ isHyphen c = false
  /\ isHyphen (spaceToHyphen c) = (c =? space)%N
  /\ (if (spaceToHyphen c =? hyphen)%N then space else spaceToHyphen c) = c.
Proof.
  unfold isPlainUnit. intros Hc. apply orb_true_iff in Hc as [Hc|Hc].
  - destruct (lowerWord_or_hyphen_facts c (or_introl Hc)) as (H1 & H2 & H3 & H4).
    pose proof (isLowerWord_range c Hc) as Hr.
    assert (Hsp : (c =? space)%N = false) by (apply N.eqb_neq; unfold space; lia).
    assert (Hhy : isHyphen c = false).
    { unfold isHyphen. apply N.eqb_neq. unfold hyphen. lia. }
    assert (Hto : spaceToHyphen c = c) by (unfold spaceToHyphen; now rewrite Hsp).
    rewrite Hto, Hsp. fold (isHyphen c). rewrite Hhy.
    repeat split; try assumption; try reflexivity.
    now rewrite Hhy in H3.
  - apply N.eqb_eq in Hc. subst c. repeat split; reflexivity.
Qed.

Lemma blanks_to_hyphens (b : bool) (s : jsstring) :
  Forall (fun c => isPlainUnit c = true) s ->
  singleSpaces s = true ->
  (b = true -> match s with c :: _ => (c =? space)%N | [] => false end = false) ->
  replaceRunsFrom isWhiteSpace hyphen b s = List.map spaceToHyphen s.
Proof.
  revert b. induction s as [|c s IH]; intros b Hp Hs Hb; [reflexivity|].
  inversion Hp as [|? ? Hc Hp']; subst.
  destruct (isPlainUnit_facts c Hc) as (_ & _ & _ & Hws & _).
  simpl. rewrite Hws. unfold spaceToHyphen at 1.
  destruct (c =? space)%N eqn:Esp.
  - destruct b; [specialize (Hb eq_refl); congruence|].
    f_equal. apply IH; [exact Hp'|now apply singleSpaces_tail in Hs|].
    intros _. destruct s as [|d s]; [reflexivity|].
    rewrite singleSpaces_cons, Esp in Hs. simpl in Hs.
    apply andb_true_iff in Hs as [Hs _]. now apply negb_true_iff in Hs.
  - f_equal. apply IH; [exact Hp'|now apply singleSpaces_tail in Hs|discriminate].
Qed.

Lemma hyphens_of_blanks_single (s : jsstring) :
  Forall (fun c => isPlainUnit c = true) s ->
  singleSpaces s = true ->
  singleHyphens (List.map spaceToHyphen s) = true.
Proof.
  induction s as [|a s IH]; intros Hp Hs; [reflexivity|].
  inversion Hp as [|? ? Ha Hp']; subst.
  destruct s as [|b s]; [reflexivity|].
  inversion Hp' as [|? ? Hb _]; subst.
  destruct (isPlainUnit_facts a Ha) as (_ & _ & _ & _ & _ & Hha & _).
  destruct (isPlainUnit_facts b Hb) as (_ & _ & _ & _ & _ & Hhb & _).
  rewrite singleSpaces_cons in Hs. apply andb_true_iff in Hs as [Hab Hs].
  change (List.map spaceToHyphen (a :: b :: s))
    with (spaceToHyphen a :: spaceToHyphen b :: List.map spaceToHyphen s).
  rewrite singleHyphens_cons, Hha, Hhb, Hab. simpl.
  now apply (IH Hp').
Qed.

Section RoundTrip.
Context `{Engine}.

(** X17. On a title made of lower-case word characters with single spaces
    between them, decoding is the inverse of encoding: the slug has a hyphen
    for every space, and decoding the slug gives the title back. *)
Theorem decodeSlug_createSlug_plain (title : jsstring) :
  Forall (fun c => isPlainUnit c = true) title ->
  singleSpaces title = true ->
  createSlug title = List.map spaceToHyphen title
  /\ decodeSlug (createSlug title) = title.
Proof.
  intros Hp Hs.
  assert (Hfacts := Forall_impl _ isPlainUnit_facts Hp).
  assert (Hlower : toLowerCase title = title).
  { rewrite toLowerCase_ascii.
    - clear - Hfacts. induction Hfacts as [|c l (_ & Hc & _) _ IH]; [reflexivity|].
      simpl. now rewrite Hc, IH.
    - eapply Forall_impl; [|exact Hfacts]. intros c Hc. apply Hc. }
  assert (Hslug : createSlug title = List.map spaceToHyphen title).
  { rewrite createSlug_trim_is_noop, Hlower.
    assert (Hkeep : removeUnless
                      (fun c => isWordChar c || isWhiteSpace c || isHyphen c) title
                    = title).
    { unfold removeUnless. clear - Hfacts.
      induction Hfacts as [|c l (_ & _ & Hc & _) _ IH]; [reflexivity|].
      simpl. now rewrite Hc, IH. }
    rewrite Hkeep. unfold replaceRuns.
    rewrite (blanks_to_hyphens false title Hp Hs) by discriminate.
    apply collapse_single_hyphens; [|discriminate].
    now apply hyphens_of_blanks_single. }
  split; [exact Hslug|].
  rewrite Hslug. unfold decodeSlug, replaceAll. rewrite map_map.
  assert (Hback : List.map (fun x => if (spaceToHyphen x =? hyphen)%N
                                     then space else spaceToHyphen x) title
                  = title).
  { clear - Hfacts.
    induction Hfacts as [|c l (_ & _ & _ & _ & _ & _ & Hc) _ IH]; [reflexivity|].
    simpl. now rewrite Hc, IH. }
  now rewrite Hback.
Qed.

End RoundTrip.

Lemma decodeSlug_createSlug_plain_witness :
  Forall (fun c => isPlainUnit c = true) (js "the room")
  /\ singleSpaces (js "the room") = true
  /\ createSlug (H := asciiEngine) (js "the room") = List.map spaceToHyphen (js "the room")
  /\ decodeSlug (H := asciiEngine) (createSlug (H := asciiEngine) (js "the room"))
     = js "the room".
Proof.
  assert (Hp : Forall (fun c => isPlainUnit c = true) (js "the room")).
  { apply Forall_forall. intros c Hc. vm_compute in Hc.
    repeat (destruct Hc as [<-|Hc]; [reflexivity|]). contradiction. }
  split; [exact Hp|]. split; [reflexivity|].
  apply (decodeSlug_createSlug_plain (H := asciiEngine) (js "the room") Hp).
  reflexivity.
Defined.

End SlugProps2.


(** ** Accounts: signing up, logging in, changing and resetting *)

Module AuthProps.
Import stdpp.base stdpp.gmap.
Import Server ServerSpec Auth ServerProps.

Lemma jsstring_eqb_refl (s : jsstring) : jsstring_eqb s s = true.
Proof. now apply jsstring_eqb_eq. Qed.

Lemma jsstring_eqb_neq (s t : jsstring) : s <> t -> jsstring_eqb s t = false.
Proof.
  intros Hne. destruct (jsstring_eqb s t) eqn:E; [|reflexivity].
  apply jsstring_eqb_eq in E. contradiction.
Qed.

Section Accounts.
Context `{Engine}.

Lemma usernameKey_lower (a b : jsstring) :
  toLowerCase a = toLowerCase b -> usernameKey a = usernameKey b.
Proof. unfold usernameKey. now intros ->. Qed.

Lemma emailKey_lower (a b : jsstring) :
  toLowerCase a = toLowerCase b -> emailKey a = emailKey b.
Proof. unfold emailKey. now intros ->. Qed.

Lemma emailKey_differs (a b : jsstring) :
  toLowerCase a <> toLowerCase b -> emailKey a <> emailKey b.
Proof. unfold emailKey. intros Hne Heq. now apply app_inv_head in Heq. Qed.

(** The answer of [login] when the store has a record under the name. *)
Lemma login_found (env : Env) (st : gmap jsstring User) (u : User)
    (username' : jsstring) (password' : option jsstring) :
  username' <> [] ->
  st !! usernameKey username' = Some u ->
  (password' = Some (password u) -> password u <> [] ->
   login env (Some username') password' st
   = (if aborted env then ClientClosed else Success (Some (withoutPassword u)), st))
  /\ (password' <> Some (password u) ->
      exists status error,
        login env (Some username') password' st = (Failure status error, st)).
Proof.
  intros Hn Hu. destruct username' as [|c0 username']; [congruence|].
  split.
  - intros -> Hpw. destruct (password u) as [|c1 pw] eqn:Epw; [congruence|].
    unfold login, bind, kv_get. unfold jsstring in *. rewrite Hu. cbv beta iota.
    rewrite Epw, jsstring_eqb_refl. unfold finish, ret. simpl.
    now destruct (aborted env).
  - intros Hne. destruct password' as [[|c1 pw]|].
    + now exists 400%Z, "Missing username or password"%string.
    + exists 401%Z, "Invalid username or password"%string.
      unfold login, bind, kv_get. unfold jsstring in *. rewrite Hu. cbv beta iota.
      rewrite jsstring_eqb_neq by congruence. reflexivity.
    + now exists 400%Z, "Missing username or password"%string.
Qed.

Lemma signup_store (env : Env) (st : gmap jsstring User)
    (username' email' password' : jsstring) :
  username' <> [] -> email' <> [] -> password' <> [] ->
  st !! usernameKey username' = None ->
  st !! emailKey email' = None ->
  snd (signup env (Some username') (Some email') (Some password') st)
  = <[emailKey email' := newUser env username' email' password']>
      (<[usernameKey username' := newUser env username' email' password']>
         (<[idKey (newUserId env) := newUser env username' email' password']> st)).
Proof.
  intros Hn Hm Hp Hfree1 Hfree2.
  destruct username' as [|c0 username']; [congruence|].
  destruct email' as [|c1 email']; [congruence|].
  destruct password' as [|c2 password']; [congruence|].
  unfold signup, bind, kv_get. unfold jsstring in *.
  rewrite Hfree1. cbv beta iota. rewrite Hfree2. cbv beta iota.
  unfold kv_set. cbv beta iota. now rewrite finish_store.
Qed.

(** X18. An account that has signed up can log in: after a sign-up for a
    free user name and a free e-mail address, whether or not the client
    waited for the answer, a log-in under the user name in any
    capitalisation and with the password answers with the public record and
    leaves the store as it is; with any other password, or none, it is
    rejected. *)
Theorem signup_then_login (env env' : Env) (st : gmap jsstring User)
    (username' email' password' name : jsstring) :
  username' <> [] -> email' <> [] -> password' <> [] ->
  st !! usernameKey username' = None ->
  st !! emailKey email' = None ->
  name <> [] -> toLowerCase name = toLowerCase username' ->
  aborted env' = false ->
  let st' := snd (signup env (Some username') (Some email') (Some password') st) in
  login env' (Some name) (Some password') st'
  = (Success (Some (withoutPassword (newUser env username' email' password'))), st')
  /\ forall other : option jsstring,
       other <> Some password' ->
       exists status error,
         login env' (Some name) other st' = (Failure status error, st').
Proof.
  intros Hn Hm Hp Hfree1 Hfree2 Hname Hlower Hopen st'.
  assert (Hu : st' !! usernameKey name
               = Some (newUser env username' email' password')).
  { subst st'. rewrite signup_store by assumption.
    rewrite (usernameKey_lower name username' Hlower).
    rewrite lookup_insert_ne
      by (unfold emailKey; apply not_eq_sym, usernameKey_not_email).
    apply lookup_insert_eq. }
  destruct (login_found env' st' _ name (Some password') Hname Hu) as [Hok _].
  split.
  - rewrite Hok by (try reflexivity; exact Hp). now rewrite Hopen.
  - intros other Hother.
    now destruct (login_found env' st' _ name other Hname Hu) as [_ Hbad];
      apply Hbad.
Qed.

(** X19. A name or an address is given out once: after a sign-up, another
    sign-up whose user name or whose e-mail address equals the first one's up
    to capitalisation is answered with status 400 and changes nothing. *)
Theorem signup_twice_rejected (env env' : Env) (st : gmap jsstring User)
    (username' email' password' : jsstring)
    (username2 email2 password2 : option jsstring) :
  username' <> [] -> email' <> [] -> password' <> [] ->
  st !! usernameKey username' = None ->
  st !! emailKey email' = None ->
  (exists name, username2 = Some name
                /\ toLowerCase name = toLowerCase username')
  \/ (exists mail, email2 = Some mail /\ toLowerCase mail = toLowerCase email') ->
  let st' := snd (signup env (Some username') (Some email') (Some password') st) in
  exists error,
    signup env' username2 email2 password2 st' = (Failure 400 error, st').
Proof.
  intros Hn Hm Hp Hfree1 Hfree2 Hsame st'.
  assert (Hname : st' !! usernameKey username'
                  = Some (newUser env username' email' password')).
  { subst st'. rewrite signup_store by assumption.
    rewrite lookup_insert_ne
      by (unfold emailKey; apply not_eq_sym, usernameKey_not_email).
    apply lookup_insert_eq. }
  assert (Hmail : st' !! emailKey email'
                  = Some (newUser env username' email' password')).
  { subst st'. rewrite signup_store by assumption. apply lookup_insert_eq. }
  clearbody st'.
  destruct username2 as [[|c0 name2]|];
    [now exists "Missing required fields"%string| |
     now exists "Missing required fields"%string].
  destruct email2 as [[|c1 mail2]|];
    [now exists "Missing required fields"%string| |
     now exists "Missing required fields"%string].
  destruct password2 as [[|c2 pw2]|];
    [now exists "Missing required fields"%string| |
     now exists "Missing required fields"%string].
  destruct (st' !! usernameKey (c0 :: name2)) as [other1|] eqn:E1;
    destruct (st' !! emailKey (c1 :: mail2)) as [other2|] eqn:E2;
    unfold signup, bind, kv_get; unfold jsstring in *; rewrite E1;
    cbv beta iota; rewrite ?E2;
    [now exists "Username already exists"%string
    |now exists "Username already exists"%string
    |now exists "Email already registered"%string|].
  exfalso. destruct Hsame as [(name & Hx & Hlower)|(mail & Hx & Hlower)].
  - injection Hx as <-. rewrite (usernameKey_lower _ _ Hlower) in E1. congruence.
  - injection Hx as <-. rewrite (emailKey_lower _ _ Hlower) in E2. congruence.
Qed.

End Accounts.

Lemma signup_then_login_witness :
  let st' := snd (signup (H := asciiEngine) request (Some (js "Alice"))
                    (Some (js "alice@example.org")) (Some (js "old-secret")) ∅) in
  login (H := asciiEngine) request (Some (js "ALICE")) (Some (js "old-secret")) st'
  = (Success (Some (withoutPassword
                      (newUser (H := asciiEngine) request (js "Alice")
                         (js "alice@example.org") (js "old-secret")))), st')
  /\ forall other : option jsstring,
       other <> Some (js "old-secret") ->
       exists status error,
         login (H := asciiEngine) request (Some (js "ALICE")) other st'
         = (Failure status error, st').
Proof.
  apply (signup_then_login (H := asciiEngine) request request ∅
           (js "Alice") (js "alice@example.org") (js "old-secret") (js "ALICE"));
    try discriminate; reflexivity.
Defined.

Lemma signup_twice_rejected_witness :
  let st' := snd (signup (H := asciiEngine) request (Some (js "Alice"))
                    (Some (js "alice@example.org")) (Some (js "old-secret")) ∅) in
  exists error,
    signup (H := asciiEngine) request (Some (js "alice")) (Some (js "a@b.c"))
      (Some (js "pw")) st'
    = (Failure 400 error, st').
Proof.
  apply (signup_twice_rejected (H := asciiEngine) request request ∅
           (js "Alice") (js "alice@example.org") (js "old-secret")
           (Some (js "alice")) (Some (js "a@b.c")) (Some (js "pw")));
    try discriminate; try reflexivity.
  left. exists (js "alice"). split; reflexivity.
Defined.

End AuthProps.


Module AuthProps2.
Import stdpp.base stdpp.gmap.
Import Server ServerSpec Auth ServerProps AuthProps.

Section Passwords.
Context `{Engine}.

Lemma resetPassword_store (env : Env) (st : gmap jsstring User) (u : User)
    (email' newPassword : jsstring) :
  email' <> [] -> newPassword <> [] ->
  st !! emailKey email' = Some u ->
  resetPassword env (Some email') (Some newPassword) st
  = (if aborted env then ClientClosed else Success None,
     <[emailKey (email u) := withPassword newPassword u]>
       (<[usernameKey (username u) := withPassword newPassword u]>
          (<[idKey (id u) := withPassword newPassword u]> st))).
Proof.
  intros Hmail Hpw Hu.
  destruct email' as [|c1 email']; [congruence|].
  destruct newPassword as [|c2 newPassword]; [congruence|].
  unfold resetPassword, bind, kv_get. unfold jsstring in *. rewrite Hu.
  unfold kv_set, finish, ret. cbv beta iota. now destruct (aborted env).
Qed.

(** X20. A reset password is the one that logs in: after a password reset
    by e-mail address, a log-in under the record's user name answers with
    the public record for the new password and rejects every other one, the
    old one included. *)
Theorem reset_then_login (env env' : Env) (st : gmap jsstring User) (u : User)
    (email' newPassword : jsstring) :
  email' <> [] -> newPassword <> [] ->
  st !! emailKey email' = Some u ->
  username u <> [] ->
  aborted env' = false ->
  let st' := snd (resetPassword env (Some email') (Some newPassword) st) in
  login env' (Some (username u)) (Some newPassword) st'
  = (Success (Some (withoutPassword u)), st')
  /\ forall other : option jsstring,
       other <> Some newPassword ->
       exists status error,
         login env' (Some (username u)) other st' = (Failure status error, st').
Proof.
  intros Hmail Hpw Hu Hname Hopen st'.
  assert (Hrec : st' !! usernameKey (username u) = Some (withPassword newPassword u)).
  { subst st'. rewrite (resetPassword_store env st u) by assumption. simpl.
    rewrite lookup_insert_ne
      by (unfold emailKey; apply not_eq_sym, usernameKey_not_email).
    apply lookup_insert_eq. }
  destruct (login_found env' st' _ (username u) (Some newPassword) Hname Hrec)
    as [Hok _].
  split.
  - rewrite Hok by (try reflexivity; exact Hpw). now rewrite Hopen.
  - intros other Hother.
    now destruct (login_found env' st' _ (username u) other Hname Hrec)
      as [_ Hbad]; apply Hbad.
Qed.

(** The record that the second half of a profile update writes. *)
Lemma finishProfile_run (env : Env) (st : gmap jsstring User) (userId : jsstring)
    (user updatedUser : User) (emailChanged : bool)
    (password' profilePicture' : option jsstring) :
  exists final,
    finishProfile env userId user updatedUser emailChanged password' profilePicture' st
    = (if aborted env then ClientClosed else Success (Some (withoutPassword final)),
       let st1 := <[usernameKey (username user) := final]>
                    (<[idKey userId := final]> st) in
       if emailChanged then st1 else <[emailKey (email user) := final]> st1)
    /\ (forall pw, password' = Some pw -> pw <> [] -> trim pw <> [] ->
        password final = pw)
    /\ ((password' = None \/ exists pw, password' = Some pw /\ trim pw = []) ->
        password final = password updatedUser).
Proof.
  unfold finishProfile.
  set (u1 := match password' with
             | Some ((_ :: _) as pw) =>
                 if jsstring_eqb (trim pw) [] then updatedUser
                 else withPassword pw updatedUser
             | _ => updatedUser
             end).
  set (final := match profilePicture' with
                | Some pic => withProfilePicture pic u1
                | None => u1
                end).
  exists final. split; [|split].
  - unfold bind, kv_set, finish, ret.
    destruct emailChanged; now destruct (aborted env).
  - intros pw -> Hpw Htrim. destruct pw as [|c pw]; [congruence|].
    assert (E1 : password u1 = c :: pw).
    { subst u1. now rewrite (jsstring_eqb_neq _ _ Htrim). }
    subst final. now destruct profilePicture'.
  - intros Hblank.
    assert (E1 : password u1 = password updatedUser).
    { subst u1. destruct Hblank as [->|(pw & -> & Htrim)]; [reflexivity|].
      destruct pw as [|c pw]; [reflexivity|].
      rewrite Htrim. reflexivity. }
    subst final. now destruct profilePicture'.
Qed.

(** A profile update that is not rejected has written its finished record
    under the user name of the record it found, last of all the writes that
    can reach that key. *)
Lemma updateProfile_run (env : Env) (st : gmap jsstring User) (u : User)
    (userId : jsstring) (email' password' profilePicture' : option jsstring) :
  userId <> [] ->
  st !! idKey userId = Some u ->
  (exists error,
     updateProfile env (Some userId) email' password' profilePicture' st
     = (Failure 400 error, st))
  \/ exists final st',
       updateProfile env (Some userId) email' password' profilePicture' st
       = (if aborted env then ClientClosed else Success (Some (withoutPassword final)),
          st')
       /\ st' !! usernameKey (username u) = Some final
       /\ (forall pw, password' = Some pw -> pw <> [] -> trim pw <> [] ->
           password final = pw)
       /\ ((password' = None \/ exists pw, password' = Some pw /\ trim pw = []) ->
           password final = password u).
Proof.
  intros Hid Hu. destruct userId as [|c0 userId]; [congruence|].
  assert (Hsame : forall st0 : gmap jsstring User,
            exists final st',
              finishProfile env (c0 :: userId) u u false password' profilePicture' st0
              = (if aborted env then ClientClosed
                 else Success (Some (withoutPassword final)), st')
              /\ st' !! usernameKey (username u) = Some final
              /\ (forall pw, password' = Some pw -> pw <> [] -> trim pw <> [] ->
                  password final = pw)
              /\ ((password' = None \/ exists pw, password' = Some pw /\ trim pw = []) ->
                  password final = password u)).
  { intros st0.
    destruct (finishProfile_run env st0 (c0 :: userId) u u false
                password' profilePicture') as (final & Hrun & Hnew & Hold).
    exists final. eexists. split; [exact Hrun|]. split; [|split; assumption].
    cbv zeta iota.
    rewrite lookup_insert_ne
      by (unfold emailKey; apply not_eq_sym, usernameKey_not_email).
    apply lookup_insert_eq. }
  unfold updateProfile, bind, kv_get. unfold jsstring in *. rewrite Hu.
  cbv beta iota.
  destruct email' as [[|c1 email']|]; [right; apply Hsame| |right; apply Hsame].
  destruct (jsstring_eqb (c1 :: email') (email u)); [right; apply Hsame|].
  cbv beta zeta.
  match goal with
  | |- context [if ?b then ret (Failure 400 "Email already in use") else _] =>
      destruct b
  end; [left; now exists "Email already in use"%string|].
  right. unfold kv_del, kv_set. cbv beta iota.
  match goal with
  | |- context [finishProfile env ?i u ?upd true password' profilePicture' ?s] =>
      destruct (finishProfile_run env s i u upd true password' profilePicture')
        as (final & Hrun & Hnew & Hold)
  end.
  exists final. eexists. split; [exact Hrun|]. split; [|split; assumption].
  cbv zeta iota. apply lookup_insert_eq.
Qed.

(** X21. A password set on the profile page is the one that logs in: when
    a profile update carrying a non-blank password is not rejected, with or
    without a new e-mail address or picture in the same request, a log-in
    under the user name answers with the updated public record for the new
    password and rejects every other one. *)
Theorem profile_password_then_login (env env' : Env) (st : gmap jsstring User)
    (u : User) (userId pw : jsstring) (email' profilePicture' : option jsstring) :
  userId <> [] ->
  st !! idKey userId = Some u ->
  username u <> [] ->
  pw <> [] -> trim pw <> [] ->
  aborted env' = false ->
  let run := updateProfile env (Some userId) email' (Some pw) profilePicture' st in
  (forall status error, fst run <> Failure status error) ->
  (exists public,
     login env' (Some (username u)) (Some pw) (snd run)
     = (Success (Some public), snd run)
     /\ (aborted env = false -> fst run = Success (Some public)))
  /\ forall other : option jsstring,
       other <> Some pw ->
       exists status error,
         login env' (Some (username u)) other (snd run)
         = (Failure status error, snd run).
Proof.
  intros Hid Hu Hname Hpw Htrim Hopen run Hok.
  destruct (updateProfile_run env st u userId email' (Some pw) profilePicture'
              Hid Hu) as [(error & Hrej)|(final & st' & Hrun & Hrec & Hnew & _)].
  { exfalso. apply (Hok 400%Z error). subst run. now rewrite Hrej. }
  assert (Hfinal : password final = pw) by now apply Hnew.
  subst run. rewrite Hrun. simpl fst. simpl snd.
  destruct (login_found env' st' final (username u) (Some pw) Hname)
    as [Hgood _]; [exact Hrec|].
  split.
  - exists (withoutPassword final). split.
    + rewrite Hgood by (rewrite Hfinal; first [reflexivity|exact Hpw]).
      now rewrite Hopen.
    + now intros ->.
  - intros other Hother.
    destruct (login_found env' st' final (username u) other Hname Hrec)
      as [_ Hbad].
    apply Hbad. now rewrite Hfinal.
Qed.

End Passwords.

Lemma reset_then_login_witness :
  let st' := snd (resetPassword (H := asciiEngine) request
                    (Some (js "Alice@Example.org")) (Some (js "new-secret"))
                    registered) in
  login (H := asciiEngine) request (Some (js "Alice")) (Some (js "new-secret")) st'
  = (Success (Some (withoutPassword alice)), st')
  /\ forall other : option jsstring,
       other <> Some (js "new-secret") ->
       exists status error,
         login (H := asciiEngine) request (Some (js "Alice")) other st'
         = (Failure status error, st').
Proof.
  apply (reset_then_login (H := asciiEngine) request request registered alice
           (js "Alice@Example.org") (js "new-secret"));
    try discriminate; reflexivity.
Defined.

Lemma profile_password_then_login_witness :
  let run := updateProfile (H := asciiEngine) request (Some (js "user_1"))
               (Some (js "Alice@Example.com")) (Some (js "new-secret")) None
               registered in
  (exists public,
     login (H := asciiEngine) request (Some (js "Alice")) (Some (js "new-secret"))
       (snd run)
     = (Success (Some public), snd run)
     /\ (aborted request = false -> fst run = Success (Some public)))
  /\ forall other : option jsstring,
       other <> Some (js "new-secret") ->
       exists status error,
         login (H := asciiEngine) request (Some (js "Alice")) other (snd run)
         = (Failure status error, snd run).
Proof.
  apply (profile_password_then_login (H := asciiEngine) request request registered
           alice (js "user_1") (js "new-secret") (Some (js "Alice@Example.com")) None);
    try discriminate; reflexivity.
Defined.

End AuthProps2.


Module AuthProps3.
Import stdpp.base stdpp.gmap.
Import Server ServerSpec Auth ServerProps AuthProps AuthProps2.

Section Rejections.
Context `{Engine}.

Lemma finish_not_failure (env : Env) (r : option PublicUser) (st : gmap jsstring User)
    (status : Z) (error : string) :
  fst (finish env (Success r) st) <> Failure status error.
Proof. unfold finish, ret. now destruct (aborted env). Qed.

Ltac turned_away :=
  unfold ret; simpl;
  let Hfail := fresh "Hfail" in
  intros Hfail; injection Hfail as <- <-; split; [lia|reflexivity].

Lemma signup_rejected (env : Env) (st : gmap jsstring User)
    (username' email' password' : option jsstring) (status : Z) (error : string) :
  fst (signup env username' email' password' st) = Failure status error ->
  status = 400%Z /\ snd (signup env username' email' password' st) = st.
Proof.
  destruct username' as [[|c0 username']|]; try turned_away.
  destruct email' as [[|c1 email']|]; try turned_away.
  destruct password' as [[|c2 password']|]; try turned_away.
  destruct (st !! usernameKey (c0 :: username')) as [other1|] eqn:E1;
    destruct (st !! emailKey (c1 :: email')) as [other2|] eqn:E2;
    unfold signup, bind, kv_get; unfold jsstring in *; rewrite E1;
    cbv beta iota; rewrite ?E2; try turned_away.
  unfold kv_set. cbv beta iota. intros Hfail.
  now apply finish_not_failure in Hfail.
Qed.

Lemma login_rejected (env : Env) (st : gmap jsstring User)
    (username' password' : option jsstring) (status : Z) (error : string) :
  fst (login env username' password' st) = Failure status error ->
  (status = 400 \/ status = 401)%Z /\ snd (login env username' password' st) = st.
Proof.
  destruct username' as [[|c0 username']|]; try turned_away.
  destruct password' as [[|c1 password']|]; try turned_away.
  destruct (st !! usernameKey (c0 :: username')) as [u|] eqn:E1;
    unfold login, bind, kv_get; unfold jsstring in *; rewrite E1;
    cbv beta iota; [|turned_away].
  destruct (negb (jsstring_eqb (password u) (c1 :: password'))); [turned_away|].
  intros Hfail. now apply finish_not_failure in Hfail.
Qed.

Lemma updateProfile_rejected (env : Env) (st : gmap jsstring User)
    (userId email' password' profilePicture' : option jsstring)
    (status : Z) (error : string) :
  fst (updateProfile env userId email' password' profilePicture' st)
  = Failure status error ->
  (status = 400 \/ status = 404)%Z
  /\ snd (updateProfile env userId email' password' profilePicture' st) = st.
Proof.
  destruct userId as [[|c0 userId]|]; try turned_away.
  destruct (st !! idKey (c0 :: userId)) as [u|] eqn:Hu.
  - destruct (updateProfile_run env st u (c0 :: userId) email' password'
                profilePicture') as [(err & Hrej)|(final & st' & Hrun & _)];
      [discriminate|exact Hu|rewrite Hrej; turned_away|].
    rewrite Hrun. simpl. now destruct (aborted env).
  - unfold updateProfile, bind, kv_get. unfold jsstring in *. rewrite Hu.
    turned_away.
Qed.

Lemma resetPassword_rejected (env : Env) (st : gmap jsstring User)
    (email' newPassword : option jsstring) (status : Z) (error : string) :
  fst (resetPassword env email' newPassword st) = Failure status error ->
  (status = 400 \/ status = 404)%Z
  /\ snd (resetPassword env email' newPassword st) = st.
Proof.
  destruct email' as [[|c0 email']|]; try turned_away.
  destruct newPassword as [[|c1 newPassword]|]; try turned_away.
  destruct (st !! emailKey (c0 :: email')) as [u|] eqn:Hu.
  - rewrite (resetPassword_store env st u) by (discriminate || exact Hu).
    simpl. now destruct (aborted env).
  - unfold resetPassword, bind, kv_get. unfold jsstring in *. rewrite Hu.
    turned_away.
Qed.

(** X22. A request that is turned away changes nothing. For requests whose
    fields are strings or missing, served by a store that answers: the only
    error answers of a sign-up, a log-in, a profile update and a password
    reset are the client errors 400, 401 and 404, each is given before the
    first write, and the store is then the one the request found. The answer
    500 of the handlers' [catch], given when a field of another type or the
    store makes a step throw, is not among them: it can follow a write. *)
Theorem rejected_request_leaves_store (env : Env) (st : gmap jsstring User)
    (userId username' email' password' profilePicture' : option jsstring)
    (run : KV Response) (status : Z) (error : string) :
  In run [signup env username' email' password';
          login env username' password';
          updateProfile env userId email' password' profilePicture';
          resetPassword env email' password'] ->
  fst (run st) = Failure status error ->
  (status = 400 \/ status = 401 \/ status = 404)%Z
  /\ snd (run st) = st.
Proof.
  intros Hin Hfail. simpl in Hin.
  destruct Hin as [<-|[<-|[<-|[<-|[]]]]].
  - apply signup_rejected in Hfail as [-> Hst]. split; [lia|exact Hst].
  - apply login_rejected in Hfail as [Hs Hst]. split; [lia|exact Hst].
  - apply updateProfile_rejected in Hfail as [Hs Hst]. split; [lia|exact Hst].
  - apply resetPassword_rejected in Hfail as [Hs Hst]. split; [lia|exact Hst].
Qed.

(** X23. An e-mail address that an account has given up no longer leads
    to it: after a profile update to an address that differs from the
    record's in more than capitalisation, nothing is stored under the old
    address, and a password reset by the old address is rejected and changes
    nothing. *)
Theorem old_email_released (env env' : Env) (st : gmap jsstring User) (u : User)
    (userId mail : jsstring) (password' profilePicture' newPassword : option jsstring) :
  userId <> [] -> mail <> [] ->
  st !! idKey userId = Some u ->
  toLowerCase mail <> toLowerCase (email u) ->
  let run := updateProfile env (Some userId) (Some mail) password' profilePicture' st in
  (forall status error, fst run <> Failure status error) ->
  snd run !! emailKey (email u) = None
  /\ exists status error,
       resetPassword env' (Some (email u)) newPassword (snd run)
       = (Failure status error, snd run).
Proof.
  intros Hid Hmail Hu Hdiff run Hok.
  assert (Hgone : snd run !! emailKey (email u) = None).
  { subst run. revert Hok.
    destruct userId as [|c0 userId]; [congruence|].
    destruct mail as [|c1 mail]; [congruence|].
    unfold updateProfile, bind, kv_get. unfold jsstring in *. rewrite Hu.
    cbv beta iota.
    rewrite (jsstring_eqb_neq (c1 :: mail) (email u)) by congruence.
    cbv beta zeta.
    match goal with
    | |- context [if ?b then ret (Failure 400 "Email already in use") else _] =>
        destruct b
    end.
    { intros Hok. exfalso. now apply (Hok 400%Z "Email already in use"%string). }
    intros _. unfold kv_del, kv_set. cbv beta iota.
    match goal with
    | |- context [finishProfile env ?i u ?upd true password' profilePicture' ?s] =>
        destruct (finishProfile_run env s i u upd true password' profilePicture')
          as (final & Hrun & _)
    end.
    unfold jsstring in *. rewrite Hrun. cbv zeta iota. simpl snd.
    rewrite lookup_insert_ne by (unfold emailKey; apply usernameKey_not_email).
    rewrite lookup_insert_ne by (unfold emailKey; apply idKey_not_email).
    rewrite lookup_insert_ne
      by (apply (emailKey_differs (c1 :: mail) (email u) Hdiff)).
    apply lookup_delete_eq. }
  split; [exact Hgone|].
  set (st' := snd run) in *. clearbody st'. clear Hok run.
  destruct (email u) as [|c2 old].
  { now exists 400%Z, "Email and new password are required"%string. }
  destruct newPassword as [[|c3 pw]|];
    [now exists 400%Z, "Email and new password are required"%string| |
     now exists 400%Z, "Email and new password are required"%string].
  exists 404%Z, "User not found"%string.
  unfold resetPassword, bind, kv_get. unfold jsstring in *. now rewrite Hgone.
Qed.

End Rejections.

Lemma rejected_request_leaves_store_witness :
  fst (signup (H := asciiEngine) request (Some (js "alice")) (Some (js "a@b.c"))
         (Some (js "pw")) registered)
  = Failure 400 "Username already exists"
  /\ (400 = 400 \/ 400 = 401 \/ 400 = 404)%Z
  /\ snd (signup (H := asciiEngine) request (Some (js "alice")) (Some (js "a@b.c"))
            (Some (js "pw")) registered)
     = registered.
Proof.
  split; [reflexivity|].
  apply (rejected_request_leaves_store (H := asciiEngine) request registered
           None (Some (js "alice")) (Some (js "a@b.c")) (Some (js "pw")) None
           _ 400%Z "Username already exists"%string);
    [left; reflexivity|reflexivity].
Defined.

Lemma old_email_released_witness :
  let run := updateProfile (H := asciiEngine) request (Some (js "user_1"))
               (Some (js "Alice@Example.com")) None None registered in
  snd run !! emailKey (H := asciiEngine) (email alice) = None
  /\ exists status error,
       resetPassword (H := asciiEngine) request (Some (email alice))
         (Some (js "new-secret")) (snd run)
       = (Failure status error, snd run).
Proof.
  apply (old_email_released (H := asciiEngine) request request registered alice
           (js "user_1") (js "Alice@Example.com") None None (Some (js "new-secret")));
    try discriminate; reflexivity.
Defined.

End AuthProps3.


(** ** Rating and deleting entries *)

Module HomeProps5.
Import Arrays Catalog CatalogSpec Home CatalogProps.

Lemma filterM_map {A : Type} (p q : A -> completion bool) (f : A -> A) (l : list A) :
  (forall a, q (f a) = p a) ->
  filterM q (List.map f l)
  = match filterM p l with
    | Normal kept => Normal (List.map f kept)
    | TypeError => TypeError
    end.
Proof.
  intros Hq. induction l as [|a l IH]; [reflexivity|].
  simpl. rewrite Hq. destruct (p a) as [[|]|]; [| |reflexivity].
  - rewrite IH. now destruct (filterM p l).
  - rewrite IH. now destruct (filterM p l).
Qed.

Lemma filter_absent {A : Type} (p : A -> bool) (l : list A) :
  Forall (fun a => p a = true) l -> List.filter p l = l.
Proof.
  induction 1 as [|a l Ha _ IH]; [reflexivity|].
  simpl. now rewrite Ha, IH.
Qed.

Section Shown.
Context `{Engine}.

(** X24. Rating an entry never changes which entries are shown: after
    [handleUpdateRating] the filter keeps the same entries in the same order
    as before, the rated ones with their new rating, and it fails exactly
    when it failed before. *)
Theorem rating_keeps_shown_entries (movieId : Z) (r : Q) (st : HomeState) :
  filteredMovies (handleUpdateRating movieId r st)
  = match filteredMovies st with
    | Normal shown =>
        Normal (List.map (fun m => if (id m =? movieId)%Z
                                   then withUserRating r m else m) shown)
    | TypeError => TypeError
    end.
Proof.
  set (update := fun m => if (id m =? movieId)%Z then withUserRating r m else m).
  assert (Hpass : forall st' : HomeState,
            selectedGenres st' = selectedGenres st ->
            selectedYears st' = selectedYears st ->
            searchQuery st' = searchQuery st ->
            imdbRatingRange st' = imdbRatingRange st ->
            runtimeFilter st' = runtimeFilter st ->
            selectedTags st' = selectedTags st ->
            forall m, passes st' (update m) = passes st m).
  { intros st' Hg Hy Hs Hr Ht Htag m.
    assert (Hm : forall st0, passes st0 (update m) = passes st0 m).
    { intros st0. unfold update. now destruct (id m =? movieId)%Z. }
    rewrite Hm.
    unfold passes, searchMatch, genreMatch, yearMatch, ratingMatch, runtimeMatch,
      tagMatch.
    now rewrite Hg, Hy, Hs, Hr, Ht, Htag. }
  unfold filteredMovies, handleUpdateRating, viewMovies.
  destruct (currentView st) eqn:E; simpl; rewrite E;
    apply filterM_map; now apply Hpass.
Qed.

End Shown.

(** X25. Deleting undoes adding: when no entry of the current view has the
    new entry's id, adding the entry and then deleting it by its id gives
    back the state before the two steps. *)
Theorem delete_undoes_add (newMovie : Movie) (st : HomeState) :
  Forall (fun m => id m <> id newMovie) (viewMovies st) ->
  handleDeleteMovie (id newMovie) (handleAddMovie newMovie st) = st.
Proof.
  intros Hfresh.
  assert (Hkeep : List.filter (fun m => negb (id m =? id newMovie)%Z) (viewMovies st)
                  = viewMovies st).
  { apply filter_absent. eapply Forall_impl; [|exact Hfresh].
    intros m Hm. simpl in Hm. now apply negb_true_iff, Z.eqb_neq. }
  unfold handleDeleteMovie, handleAddMovie, viewMovies in *.
  destruct st as [ms tw sg sy q page view sb range rf tg]. simpl in *.
  destruct view; simpl; rewrite Z.eqb_refl; simpl; now rewrite Hkeep.
Qed.

Lemma delete_undoes_add_witness :
  Forall (fun m => id m <> id (entry 9 "Heat")) (viewMovies (initialState shelf))
  /\ handleDeleteMovie 9 (handleAddMovie (entry 9 "Heat") (initialState shelf))
     = initialState shelf.
Proof.
  assert (Hfresh : Forall (fun m => id m <> id (entry 9 "Heat"))
                     (viewMovies (initialState shelf))).
  { apply Forall_forall. intros m Hm. vm_compute in Hm.
    repeat (destruct Hm as [<-|Hm]; [vm_compute; discriminate|]). contradiction. }
  split; [exact Hfresh|].
  apply (delete_undoes_add (entry 9 "Heat") (initialState shelf) Hfresh).
Defined.

End HomeProps5.
